(** * MongoDB protocol module of packetbeat: stream driver and transaction
      correlator

    Shallow embedding of [protos/mongodb/mongodb.go] and of the structures
    file of the same package (messages, streams, transactions, the opcode
    table), followed by the properties of the design description that the
    code decides.

    Conventions.
    - Go integers are [Z]; conversions that wrap are written out
      ([int32_of], [int64_of]).
    - [common.MapStr] is a finite map from strings to decoded values.
    - Pointers to transactions and timers are addresses into two stores kept
      in the state ([heap], [timers]); the correlation table maps a
      connection key to an address, and a timer callback captures the
      address of its transaction, as the closure of the source does.
    - A timer of [time.AfterFunc] runs its callback in a goroutine of its
      own: between the moment its delay elapses and the moment the callback
      runs, the packet path may handle further messages, and [Stop] no
      longer prevents the callback.  The two moments are separate actions
      of the transition system.
    - A deferred recover turns a run-time panic inside [Parse] into a nil
      result; panics are therefore explicit outcomes of the stream driver. *)

From stdpp Require Import base option list gmap strings pretty.
From Stdlib Require Import ZArith Lia Strings.Byte.

Local Open Scope Z_scope.

(** ** Values and field maps *)

(** The dynamically typed values ([interface{}]) a field map may hold;
    arrays and sub-documents are kept in their encoded form. *)
Inductive Value :=
  | VNull
  | VBool (b : bool)
  | VInt (n : Z)
  | VString (s : string)
  | VBinary (bson : list Byte.byte).

(** [common.MapStr].  Every message and transaction the correlator handles
    carries an allocated map; copying the map reference of a message into
    a transaction is the copy of the value here, the message being dropped
    by the driver right after it is handled. *)
Abbreviation MapStr := (gmap string Value).

(** The comma-ok type assertion [v.(string)] on a map read. *)
Definition assert_string (v : option Value) : string :=
  match v with
  | Some (VString s) => s
  | _ => ""%string
  end.

(** ** Machine integers and time *)

Definition int32_of (z : Z) : Z := (z + 2 ^ 31) `mod` 2 ^ 32 - 2 ^ 31.
Definition int64_of (z : Z) : Z := (z + 2 ^ 63) `mod` 2 ^ 64 - 2 ^ 63.
Definition uint64_of (z : Z) : Z := z `mod` 2 ^ 64.

(** An instant ([time.Time]) as nanoseconds since the epoch, and a
    [time.Duration] as a signed 64-bit count of nanoseconds. *)
Abbreviation Time := Z (only parsing).
Abbreviation Duration := Z (only parsing).

Definition minDuration : Duration := - 2 ^ 63.
Definition maxDuration : Duration := 2 ^ 63 - 1.
Definition Millisecond : Duration := 10 ^ 6.
Definition Second : Duration := 10 ^ 9.

(** [t.Sub(u)]: the difference, or the extreme duration when it does not
    fit. *)
Definition Time_Sub (t u : Time) : Duration :=
  if decide (t - u < minDuration) then minDuration
  else if decide (maxDuration < t - u) then maxDuration
  else t - u.

Definition Nanoseconds (d : Duration) : Z := d.
Definition UnixNano (t : Time) : Z := int64_of t.

(** ** Connection identity *)

(** Modelled from the spec: [common.TcpTuple], [common.HashableTcpTuple],
    [common.Endpoint] and [common.CmdlineTuple] are declared in another
    package.  A connection identity is the four-tuple of source and
    destination address and port; its hashable form is what keys the
    correlation table, and it does not hold the direction of travel. *)
Abbreviation IP := (list N) (only parsing).

Record TcpTuple := {
  Src_ip : IP;
  Src_port : Z;
  Dst_ip : IP;
  Dst_port : Z;
}.

Abbreviation HashableTcpTuple := (list N * Z * list N * Z)%type.

Definition Hashable (t : TcpTuple) : HashableTcpTuple :=
  (Src_ip t, Src_port t, Dst_ip t, Dst_port t).

Record Endpoint := {
  Ip : string;
  Port : Z;
  Proc : string;
}.

Record CmdlineTuple := {
  cl_Src : string;
  cl_Dst : string;
}.

(** ** Messages, streams, transactions *)

Record MongodbMessage := {
  m_Ts : Time;
  m_TcpTuple : TcpTuple;
  m_CmdlineTuple : CmdlineTuple;
  m_Direction : Z;
  m_IsResponse : bool;
  m_ExpectsResponse : bool;
  m_messageLength : Z;
  m_requestId : Z;
  m_responseTo : Z;
  m_opCode : string;
  m_method : string;
  m_error : string;
  m_event : MapStr;
}.

Definition zeroTcpTuple : TcpTuple :=
  {| Src_ip := []; Src_port := 0; Dst_ip := []; Dst_port := 0 |}.
Definition zeroCmdlineTuple : CmdlineTuple := {| cl_Src := ""; cl_Dst := "" |}.
Definition zeroEndpoint : Endpoint := {| Ip := ""; Port := 0; Proc := "" |}.

(** [&MongodbMessage{Ts: ts}]: every other field has its zero value. *)
Definition newMessage (ts : Time) : MongodbMessage :=
  {| m_Ts := ts; m_TcpTuple := zeroTcpTuple; m_CmdlineTuple := zeroCmdlineTuple;
     m_Direction := 0; m_IsResponse := false; m_ExpectsResponse := false;
     m_messageLength := 0; m_requestId := 0; m_responseTo := 0;
     m_opCode := ""; m_method := ""; m_error := ""; m_event := ∅ |}.

Record MongodbStream := {
  s_tcptuple : TcpTuple;
  s_data : list Byte.byte;
  s_parseOffset : Z;
  s_bytesReceived : Z;
  s_message : option MongodbMessage;
}.

(** [[2]*MongodbStream]: one slot per direction, nil until first used. *)
Record mongodbPrivateData := {
  Data0 : option MongodbStream;
  Data1 : option MongodbStream;
}.

Abbreviation addr := nat (only parsing).
Abbreviation timer_id := nat (only parsing).

Record MongodbTransaction := {
  t_Type : string;
  t_tuple : TcpTuple;
  t_cmdline : CmdlineTuple;
  t_Src : Endpoint;
  t_Dst : Endpoint;
  t_ResponseTime : Z;
  t_Ts : Z;
  t_JsTs : Time;
  t_ts : Time;
  t_BytesOut : Z;
  t_BytesIn : Z;
  t_timer : option timer_id;
  t_Mongodb : option MapStr;
  t_event : MapStr;
  t_method : string;
  t_error : string;
}.

(** [TransactionsHashSize = 2 ^ 16] in Go is an exclusive or; the value is
    only the initial capacity of the table. *)
Definition TransactionsHashSize : Z := Z.lxor 2 16.
Definition TransactionTimeout : Duration := 10 * 10 ^ 9.

(** ** The opcode table *)

Definition OpCodes : gmap Z string :=
  list_to_map
    [ (1, "OP_REPLY"); (1000, "OP_MSG"); (2001, "OP_UPDATE");
      (2002, "OP_INSERT"); (2003, "RESERVED"); (2004, "OP_QUERY");
      (2005, "OP_GET_MORE"); (2006, "OP_DELETE"); (2007, "OP_KILL_CURSORS") ]%string.

(** List of mongodb user commands (sent through a query of the legacy
    protocol). *)
Definition UserCommands : list string :=
  [ "aggregate"; "count"; "distinct"; "group"; "mapReduce"; "geoNear";
    "geoSearch"; "geoWalk"; "insert"; "update"; "delete"; "findAndModify";
    "getLastError"; "getPrevError"; "resetError"; "eval";
    "parallelCollectionScan"; "planCacheListFilters"; "planCacheSetFilter";
    "planCacheClearFilters"; "planCacheListQueryShapes"; "planCacheListPlans";
    "planCacheClear" ]%string.

(** ** The state of the module *)

Inductive Status := OK_STATUS | ERROR_STATUS.

(** The record handed to the results channel.  The source builds it as a
    [MapStr] with exactly these keys. *)
Record Event := {
  ev_type : string;
  ev_status : Status;
  ev_mongodb : MapStr;
  ev_method : string;
  ev_query : string;
  ev_responsetime : Z;
  ev_bytes_in : Z;
  ev_bytes_out : Z;
  ev_timestamp : Time;
  ev_src : Endpoint;
  ev_dst : Endpoint;
}.

(** A timer made by [time.AfterFunc].  [TimerArmed]: waiting.
    [TimerExpired]: the delay has elapsed and the callback has been started
    in its own goroutine, but has not yet run.  [TimerStopped]: [Stop]
    arrived first.  [TimerDone]: the callback has run. *)
Inductive TimerStatus := TimerArmed | TimerExpired | TimerStopped | TimerDone.

Record Timer := {
  tm_duration : Duration;
  tm_trans : addr;
  tm_status : TimerStatus;
}.

(** The [Mongodb] struct together with the part of the run time it uses:
    the transactions it allocated, the timers it made, the warnings it
    logged.  [results] is [None] for a nil channel and otherwise lists the
    events sent so far. *)
Record State := {
  Send_request : bool;
  Send_response : bool;
  transactionsMap : gmap HashableTcpTuple addr;
  results : option (list Event);
  heap : list MongodbTransaction;
  timers : list Timer;
  warnings : list string;
}.

Definition set_transactionsMap (f : gmap HashableTcpTuple addr → gmap HashableTcpTuple addr)
    (st : State) : State :=
  {| Send_request := Send_request st; Send_response := Send_response st;
     transactionsMap := f (transactionsMap st); results := results st;
     heap := heap st; timers := timers st; warnings := warnings st |}.

Definition set_results (f : option (list Event) → option (list Event)) (st : State) : State :=
  {| Send_request := Send_request st; Send_response := Send_response st;
     transactionsMap := transactionsMap st; results := f (results st);
     heap := heap st; timers := timers st; warnings := warnings st |}.

Definition set_heap (f : list MongodbTransaction → list MongodbTransaction) (st : State) : State :=
  {| Send_request := Send_request st; Send_response := Send_response st;
     transactionsMap := transactionsMap st; results := results st;
     heap := f (heap st); timers := timers st; warnings := warnings st |}.

Definition set_timers (f : list Timer → list Timer) (st : State) : State :=
  {| Send_request := Send_request st; Send_response := Send_response st;
     transactionsMap := transactionsMap st; results := results st;
     heap := heap st; timers := f (timers st); warnings := warnings st |}.

(** [logp.Warn]. *)
Definition Warn (s : string) (st : State) : State :=
  {| Send_request := Send_request st; Send_response := Send_response st;
     transactionsMap := transactionsMap st; results := results st;
     heap := heap st; timers := timers st; warnings := warnings st ++ [s] |}.

Definition set_status (s : TimerStatus) (tm : Timer) : Timer :=
  {| tm_duration := tm_duration tm; tm_trans := tm_trans tm; tm_status := s |}.

Definition stopped (tm : Timer) : Timer :=
  match tm_status tm with
  | TimerArmed => set_status TimerStopped tm
  | _ => tm
  end.

(** [timer.Stop()]: only a waiting timer is prevented from firing. *)
Definition Timer_Stop (id : timer_id) (st : State) : State :=
  set_timers (alter stopped id) st.

(** [time.AfterFunc(d, func() { mongodb.expireTransaction(trans) })]: the new
    timer's identity and the state holding it. *)
Definition AfterFunc (d : Duration) (trans : addr) (st : State) : timer_id * State :=
  (length (timers st),
   set_timers (λ ts, ts ++ [{| tm_duration := d; tm_trans := trans;
                               tm_status := TimerArmed |}]) st).

(** ** The transaction correlator *)

Section Correlator.

(** Declared in other packages: the textual form of an address
    ([net.IP.String]) and the direction constant of the TCP layer. *)
Variable IP_String : list N → string.
Variable TcpDirectionReverse : Z.

(** [&MongodbTransaction{Type: "mongodb", tuple: tuple}]. *)
Definition newTransaction (tuple : TcpTuple) : MongodbTransaction :=
  {| t_Type := "mongodb"; t_tuple := tuple; t_cmdline := zeroCmdlineTuple;
     t_Src := zeroEndpoint; t_Dst := zeroEndpoint; t_ResponseTime := 0;
     t_Ts := 0; t_JsTs := 0; t_ts := 0; t_BytesOut := 0; t_BytesIn := 0;
     t_timer := None; t_Mongodb := None; t_event := ∅; t_method := "";
     t_error := "" |}.

(** The assignments of [receivedMongodbRequest] to the fields of [trans],
    from [trans.Mongodb = common.MapStr{}] to the swap of the endpoints. *)
Definition storeRequest (msg : MongodbMessage) (trans : MongodbTransaction)
    : MongodbTransaction :=
  let src := {| Ip := IP_String (Src_ip (m_TcpTuple msg));
                Port := Src_port (m_TcpTuple msg);
                Proc := cl_Src (m_CmdlineTuple msg) |} in
  let dst := {| Ip := IP_String (Dst_ip (m_TcpTuple msg));
                Port := Dst_port (m_TcpTuple msg);
                Proc := cl_Dst (m_CmdlineTuple msg) |} in
  let reversed := bool_decide (m_Direction msg = TcpDirectionReverse) in
  {| t_Type := t_Type trans; t_tuple := t_tuple trans;
     t_cmdline := m_CmdlineTuple msg;
     t_Src := if reversed then dst else src;
     t_Dst := if reversed then src else dst;
     t_ResponseTime := t_ResponseTime trans;
     t_Ts := int64_of (UnixNano (m_Ts msg) ÷ 1000);
     t_JsTs := m_Ts msg; t_ts := m_Ts msg;
     t_BytesOut := t_BytesOut trans; t_BytesIn := t_BytesIn trans;
     t_timer := t_timer trans;
     t_Mongodb := Some ∅;
     t_event := m_event msg;
     t_method := m_method msg;
     t_error := t_error trans |}.

Definition set_timer (id : option timer_id) (trans : MongodbTransaction)
    : MongodbTransaction :=
  {| t_Type := t_Type trans; t_tuple := t_tuple trans; t_cmdline := t_cmdline trans;
     t_Src := t_Src trans; t_Dst := t_Dst trans;
     t_ResponseTime := t_ResponseTime trans; t_Ts := t_Ts trans;
     t_JsTs := t_JsTs trans; t_ts := t_ts trans;
     t_BytesOut := t_BytesOut trans; t_BytesIn := t_BytesIn trans;
     t_timer := id; t_Mongodb := t_Mongodb trans; t_event := t_event trans;
     t_method := t_method trans; t_error := t_error trans |}.

(** The last four lines of [receivedMongodbRequest]: stop the timer the
    transaction holds, if any, then arm a new one for it. *)
Definition rearm (a : addr) (trans : MongodbTransaction) (st : State) : State :=
  let st1 := match t_timer trans with
             | Some id => Timer_Stop id st
             | None => st
             end in
  let '(id, st2) := AfterFunc TransactionTimeout a st1 in
  set_heap <[a := set_timer (Some id) trans]> st2.

(** An address found in the table is always allocated ([wf_table] below);
    the branch for an unallocated one is there for totality. *)
Definition receivedMongodbRequest (msg : MongodbMessage) (st : State) : State :=
  let tuple := m_TcpTuple msg in
  match transactionsMap st !! Hashable tuple with
  | Some a =>
      match heap st !! a with
      | Some trans =>
          let st1 :=
            match t_Mongodb trans with
            | Some _ => Warn "Two requests without a Response. Dropping old request" st
            | None => st
            end in
          let trans1 := storeRequest msg trans in
          rearm a trans1 (set_heap <[a := trans1]> st1)
      | None => st
      end
  | None =>
      let a := length (heap st) in
      let trans := newTransaction tuple in
      let st1 := set_transactionsMap <[Hashable tuple := a]>
                   (set_heap (λ h, h ++ [trans]) st) in
      let trans1 := storeRequest msg trans in
      rearm a trans1 (set_heap <[a := trans1]> st1)
  end.

(** The timer callback: the entry stored under the key of the captured
    transaction is deleted. *)
Definition expireTransaction (a : addr) (st : State) : State :=
  match heap st !! a with
  | Some trans => set_transactionsMap (delete (Hashable (t_tuple trans))) st
  | None => st
  end.

(** [for k, v := range msg.event { trans.event[k] = v }]. *)
Definition mergeEvent (resp req : MapStr) : MapStr :=
  map_fold (λ k v acc, <[k := v]> acc) req resp.

Definition storeResponse (msg : MongodbMessage) (trans : MongodbTransaction)
    : MongodbTransaction :=
  {| t_Type := t_Type trans; t_tuple := t_tuple trans; t_cmdline := t_cmdline trans;
     t_Src := t_Src trans; t_Dst := t_Dst trans;
     t_ResponseTime :=
       int32_of (Nanoseconds (Time_Sub (m_Ts msg) (t_ts trans)) ÷ 1000000);
     t_Ts := t_Ts trans; t_JsTs := t_JsTs trans; t_ts := t_ts trans;
     t_BytesOut := t_BytesOut trans; t_BytesIn := t_BytesIn trans;
     t_timer := t_timer trans; t_Mongodb := t_Mongodb trans;
     t_event := mergeEvent (m_event msg) (t_event trans);
     t_method := t_method trans;
     t_error := m_error msg |}.

Definition set_event (ev : MapStr) (trans : MongodbTransaction) : MongodbTransaction :=
  {| t_Type := t_Type trans; t_tuple := t_tuple trans; t_cmdline := t_cmdline trans;
     t_Src := t_Src trans; t_Dst := t_Dst trans;
     t_ResponseTime := t_ResponseTime trans; t_Ts := t_Ts trans;
     t_JsTs := t_JsTs trans; t_ts := t_ts trans;
     t_BytesOut := t_BytesOut trans; t_BytesIn := t_BytesIn trans;
     t_timer := t_timer trans; t_Mongodb := t_Mongodb trans; t_event := ev;
     t_method := t_method trans; t_error := t_error trans |}.

(** The branch of [publishTransaction] on [t.error]: a non-empty error
    text is written into the field map of the transaction. *)
Definition recordError (t : MongodbTransaction) : MongodbTransaction :=
  if decide (t_error t = ""%string) then t
  else set_event (<["error"%string := VString (t_error t)]> (t_event t)) t.

(** The event built from a transaction whose error has been recorded. *)
Definition eventOf (t : MongodbTransaction) : Event :=
  let fullCollectioName := assert_string (t_event t !! "fullCollectionName"%string) in
  {| ev_type := "mongodb";
     ev_status := if decide (t_error t = ""%string) then OK_STATUS else ERROR_STATUS;
     ev_mongodb := t_event t;
     ev_method := t_method t;
     ev_query := (t_method t +:+ " " +:+ fullCollectioName)%string;
     ev_responsetime := t_ResponseTime t;
     ev_bytes_in := uint64_of (t_BytesIn t);
     ev_bytes_out := uint64_of (t_BytesOut t);
     ev_timestamp := t_ts t;
     ev_src := t_Src t;
     ev_dst := t_Dst t |}.

Definition publishTransaction (a : addr) (st : State) : State :=
  match results st with
  | None => st
  | Some sent =>
      match heap st !! a with
      | Some t =>
          let t1 := recordError t in
          set_results (λ _, Some (sent ++ [eventOf t1])) (set_heap <[a := t1]> st)
      | None => st
      end
  end.

Definition receivedMongodbResponse (msg : MongodbMessage) (st : State) : State :=
  let tuple := m_TcpTuple msg in
  match transactionsMap st !! Hashable tuple with
  | None => Warn "Response from unknown transaction. Ignoring." st
  | Some a =>
      match heap st !! a with
      | Some trans =>
          match t_Mongodb trans with
          | None => Warn "Response from unknown transaction. Ignoring." st
          | Some _ =>
              let trans1 := storeResponse msg trans in
              let st1 := publishTransaction a (set_heap <[a := trans1]> st) in
              let st2 := set_transactionsMap (delete (Hashable (t_tuple trans1))) st1 in
              match t_timer trans1 with
              | Some id => Timer_Stop id st2
              | None => st2
              end
          end
      | None => st
      end
  end.

(** *** The module as a transition system

    The packet path hands decoded messages to the two handlers; the run
    time lets the delay of a waiting timer elapse, and later runs the
    callback of an elapsed timer.  Each handler runs to completion before
    the next action. *)
Inductive Action :=
  | ARequest (msg : MongodbMessage)
  | AResponse (msg : MongodbMessage)
  | AElapse (id : timer_id)
  | ACallback (id : timer_id).

Definition expired (tm : Timer) : Timer :=
  match tm_status tm with
  | TimerArmed => set_status TimerExpired tm
  | _ => tm
  end.

Definition elapse (id : timer_id) (st : State) : State :=
  set_timers (alter expired id) st.

Definition callback (id : timer_id) (st : State) : State :=
  match timers st !! id with
  | Some tm =>
      match tm_status tm with
      | TimerExpired =>
          expireTransaction (tm_trans tm)
            (set_timers <[id := set_status TimerDone tm]> st)
      | _ => st
      end
  | None => st
  end.

Definition step (a : Action) (st : State) : State :=
  match a with
  | ARequest msg => receivedMongodbRequest msg st
  | AResponse msg => receivedMongodbResponse msg st
  | AElapse id => elapse id st
  | ACallback id => callback id st
  end.

Definition run (acts : list Action) (st : State) : State :=
  foldl (λ s a, step a s) st acts.

End Correlator.

(** ** Initialisation *)

(** What the configuration file defines for the two switches of the
    module, if anything. *)
Record Config := {
  conf_Send_request : option bool;
  conf_Send_response : option bool;
}.

Definition InitDefaults (st : State) : State :=
  {| Send_request := false; Send_response := false;
     transactionsMap := transactionsMap st; results := results st;
     heap := heap st; timers := timers st; warnings := warnings st |}.

Definition setFromConfig (conf : Config) (st : State) : State :=
  {| Send_request := default (Send_request st) (conf_Send_request conf);
     Send_response := default (Send_response st) (conf_Send_response conf);
     transactionsMap := transactionsMap st; results := results st;
     heap := heap st; timers := timers st; warnings := warnings st |}.

(** [Init] on a new [Mongodb] value, before any transaction or timer
    exists. *)
Definition Init (test_mode : bool) (conf : Config) (results : option (list Event)) : State :=
  let st := InitDefaults
              {| Send_request := false; Send_response := false; transactionsMap := ∅;
                 results := None; heap := []; timers := []; warnings := [] |} in
  let st := if test_mode then st else setFromConfig conf st in
  set_results (λ _, results) (set_transactionsMap (λ _, ∅) st).

Inductive reachable (IP_String : list N → string) (TcpDirectionReverse : Z) : State → Prop :=
  | reachable_Init test_mode conf :
      ∀ attached : bool,
      reachable IP_String TcpDirectionReverse
        (Init test_mode conf (if attached then Some [] else None))
  | reachable_step a st :
      reachable IP_String TcpDirectionReverse st →
      reachable IP_String TcpDirectionReverse (step IP_String TcpDirectionReverse a st).

(** The invariant of the reachable states: every entry of the table points
    to an allocated transaction that is open, holds a timer, and whose
    connection key is the key of the entry; and every timer a transaction
    records exists. *)
Record wf (st : State) : Prop := {
  wf_table : ∀ k a, transactionsMap st !! k = Some a →
    ∃ t, heap st !! a = Some t ∧ Hashable (t_tuple t) = k ∧
         is_Some (t_Mongodb t) ∧ is_Some (t_timer t);
  wf_timer : ∀ a t id, heap st !! a = Some t → t_timer t = Some id →
    (id < length (timers st))%nat;
}.

(** The timers after the [Stop] of a request on the timer [trans] holds. *)
Definition stopTimerOf (trans : MongodbTransaction) (ts : list Timer) : list Timer :=
  match t_timer trans with
  | Some id => alter stopped id ts
  | None => ts
  end.

(** The timer a request arms for the transaction at [a]. *)
Definition armedFor (a : addr) : Timer :=
  {| tm_duration := TransactionTimeout; tm_trans := a; tm_status := TimerArmed |}.

(** The transaction a response [resp] leaves when it finds the request [req]
    stored over [base] with timer [id], once its error is recorded. *)
Definition answered (IP_String : list N → string) (TcpDirectionReverse : Z)
    (req resp : MongodbMessage) (base : MongodbTransaction) (id : timer_id)
    : MongodbTransaction :=
  recordError
    (storeResponse resp
       (set_timer (Some id) (storeRequest IP_String TcpDirectionReverse req base))).

(** ** The stream driver *)

(** [protos.Packet], as far as the module reads it. *)
Record Packet := {
  Payload : list Byte.byte;
  pkt_Ts : Time;
}.

(** Parser moves to next message in stream.  [None] is the panic of a nil
    message or of a slice bound out of range. *)
Definition PrepareForNewMessage (stream : MongodbStream) : option MongodbStream :=
  m ← s_message stream;
  if decide (0 ≤ m_messageLength m ≤ Z.of_nat (length (s_data stream))) then
    Some {| s_tcptuple := s_tcptuple stream;
            s_data := drop (Z.to_nat (m_messageLength m)) (s_data stream);
            s_parseOffset := s_parseOffset stream;
            s_bytesReceived := s_bytesReceived stream;
            s_message := Some (newMessage (m_Ts m)) |}
  else None.

Definition emptyPrivateData : mongodbPrivateData := {| Data0 := None; Data1 := None |}.

(** [priv.Data[dir]]; [None] is the panic of an index out of range. *)
Definition getData (priv : mongodbPrivateData) (dir : Z) : option (option MongodbStream) :=
  if decide (dir = 0) then Some (Data0 priv)
  else if decide (dir = 1) then Some (Data1 priv)
  else None.

Definition setData (priv : mongodbPrivateData) (dir : Z) (s : option MongodbStream)
    : mongodbPrivateData :=
  if decide (dir = 0) then {| Data0 := s; Data1 := Data1 priv |}
  else if decide (dir = 1) then {| Data0 := Data0 priv; Data1 := s |}
  else priv.

Definition set_data (d : list Byte.byte) (stream : MongodbStream) : MongodbStream :=
  {| s_tcptuple := s_tcptuple stream; s_data := d;
     s_parseOffset := s_parseOffset stream;
     s_bytesReceived := s_bytesReceived stream; s_message := s_message stream |}.

Definition set_message (m : option MongodbMessage) (stream : MongodbStream) : MongodbStream :=
  {| s_tcptuple := s_tcptuple stream; s_data := s_data stream;
     s_parseOffset := s_parseOffset stream;
     s_bytesReceived := s_bytesReceived stream; s_message := m |}.

(** [&MongodbStream{tcptuple: tcptuple, data: pkt.Payload,
    message: &MongodbMessage{Ts: pkt.Ts}}]. *)
Definition newStream (pkt : Packet) (tcptuple : TcpTuple) : MongodbStream :=
  {| s_tcptuple := tcptuple; s_data := Payload pkt; s_parseOffset := 0;
     s_bytesReceived := 0; s_message := Some (newMessage (pkt_Ts pkt)) |}.

(** What a call of [Parse] comes to: the protocol data it returns (nil after
    a recovered panic) and the state it leaves, unless the loop never
    ends. *)
Inductive ParseResult :=
  | Returned (private : option mongodbPrivateData) (st : State)
  | OutOfFuel.

Section Driver.

Variable IP_String : list N → string.
Variable TcpDirectionReverse : Z.

(** Declared elsewhere: the process watcher, the ceiling of the TCP layer
    on buffered bytes, and the decoder of one message, which reports
    [(ok, complete)] and may fill in the message of the stream. *)
Variable FindProcessesTuple : TcpTuple → CmdlineTuple.
Variable TCP_MAX_DATA_IN_STREAM : Z.
Variable mongodbMessageParser : MongodbStream → bool * bool * MongodbStream.

Definition handleMongodb (m : MongodbMessage) (tcptuple : TcpTuple) (dir : Z)
    (st : State) : MongodbMessage * State :=
  let m1 :=
    {| m_Ts := m_Ts m; m_TcpTuple := tcptuple;
       m_CmdlineTuple := FindProcessesTuple tcptuple; m_Direction := dir;
       m_IsResponse := m_IsResponse m; m_ExpectsResponse := m_ExpectsResponse m;
       m_messageLength := m_messageLength m; m_requestId := m_requestId m;
       m_responseTo := m_responseTo m; m_opCode := m_opCode m;
       m_method := m_method m; m_error := m_error m; m_event := m_event m |} in
  (m1, if m_IsResponse m1
       then receivedMongodbResponse m1 st
       else receivedMongodbRequest IP_String TcpDirectionReverse m1 st).

(** The [for len(stream.data) > 0] loop of [Parse]. *)
Fixpoint parseLoop (fuel : nat) (pkt : Packet) (tcptuple : TcpTuple) (dir : Z)
    (priv : mongodbPrivateData) (stream : MongodbStream) (st : State) : ParseResult :=
  if decide (0 < length (s_data stream))%nat then
    match fuel with
    | O => OutOfFuel
    | S fuel' =>
        let stream1 :=
          match s_message stream with
          | None => set_message (Some (newMessage (pkt_Ts pkt))) stream
          | Some _ => stream
          end in
        let '(ok, complete, stream2) := mongodbMessageParser stream1 in
        if negb ok then Returned (Some (setData priv dir None)) st
        else if complete then
          match s_message stream2 with
          | Some m =>
              let '(m1, st1) := handleMongodb m tcptuple dir st in
              match PrepareForNewMessage (set_message (Some m1) stream2) with
              | Some stream3 => parseLoop fuel' pkt tcptuple dir priv stream3 st1
              | None => Returned None st1
              end
          | None => Returned None st
          end
        else Returned (Some (setData priv dir (Some stream2))) st
    end
  else Returned (Some (setData priv dir (Some stream))) st.

Definition Parse (fuel : nat) (pkt : Packet) (tcptuple : TcpTuple) (dir : Z)
    (private : option mongodbPrivateData) (st : State) : ParseResult :=
  let priv := default emptyPrivateData private in
  match getData priv dir with
  | None => Returned None st
  | Some None => parseLoop fuel pkt tcptuple dir priv (newStream pkt tcptuple) st
  | Some (Some old) =>
      let stream := set_data (s_data old ++ Payload pkt) old in
      if decide (TCP_MAX_DATA_IN_STREAM < Z.of_nat (length (s_data stream))) then
        Returned (Some (setData priv dir None)) st
      else parseLoop fuel pkt tcptuple dir priv stream st
  end.

(** Both are left to do in the source and hand the protocol data back. *)
Definition GapInStream (tcptuple : TcpTuple) (dir : Z)
    (private : option mongodbPrivateData) : option mongodbPrivateData := private.

Definition ReceivedFin (tcptuple : TcpTuple) (dir : Z)
    (private : option mongodbPrivateData) : option mongodbPrivateData := private.

End Driver.

(** ** The wire message decoder *)

(** Modelled from the spec: the three outcomes of the decoder of one wire
    message.  The decoder ([mongodbMessageParser]) lives in a file of the
    package that is not among the sources at hand; [Parse] only sees its
    two booleans. *)
Inductive DecodeResult :=
  | NeedMoreData
  | Malformed
  | Complete (consumed : Z).

(** Modelled from the spec: a header field of the missing decoder, a signed
    32-bit integer in little-endian order at offset [off]. *)
Definition readInt32 (off : nat) (data : list Byte.byte) : option Z :=
  match take 4 (drop off data) with
  | [b0; b1; b2; b3] =>
      Some (int32_of (Z.of_N (Byte.to_N b0) + 2 ^ 8 * Z.of_N (Byte.to_N b1) +
                      2 ^ 16 * Z.of_N (Byte.to_N b2) + 2 ^ 24 * Z.of_N (Byte.to_N b3)))
  | _ => None
  end.

(** Modelled from the spec: the opcode resolution of the missing decoder.
    The name of the supported operation an opcode stands for, if any: the
    table does not hold it, or holds it as reserved, and it is none. *)
Definition resolveOperation (code : Z) : option string :=
  match OpCodes !! code with
  | Some name => if decide (name = "RESERVED"%string) then None else Some name
  | None => None
  end.

Definition set_header (len requestId responseTo : Z) (opCode : string)
    (m : MongodbMessage) : MongodbMessage :=
  {| m_Ts := m_Ts m; m_TcpTuple := m_TcpTuple m; m_CmdlineTuple := m_CmdlineTuple m;
     m_Direction := m_Direction m; m_IsResponse := m_IsResponse m;
     m_ExpectsResponse := m_ExpectsResponse m;
     m_messageLength := len; m_requestId := requestId; m_responseTo := responseTo;
     m_opCode := opCode; m_method := m_method m; m_error := m_error m;
     m_event := m_event m |}.

Section Decoder.

(** The decoding of the body of a supported operation, by the name of
    its opcode, over the bytes of the one message. *)
Variable decodeBody :
  string → list Byte.byte → MongodbMessage → DecodeResult * MongodbMessage.

(** Modelled from the spec: the missing decoder of one wire message.  It
    reads the sixteen-byte header (length, request id, response-to,
    opcode), asks for more data while fewer bytes are buffered than the
    length announces, rejects a length below the header size, resolves
    the opcode through [OpCodes], rejects an opcode that does not resolve
    to a supported operation, and leaves the body to the decoder of the
    operation. *)
Definition decodeMessage (data : list Byte.byte) (m : MongodbMessage)
    : DecodeResult * MongodbMessage :=
  match readInt32 0 data with
  | None => (NeedMoreData, m)
  | Some len =>
      if decide (Z.of_nat (length data) < len) then (NeedMoreData, m)
      else if decide (len < 16) then (Malformed, m)
      else
        match readInt32 4 data, readInt32 8 data, readInt32 12 data with
        | Some requestId, Some responseTo, Some code =>
            match resolveOperation code with
            | Some name =>
                decodeBody name (take (Z.to_nat len) data)
                  (set_header len requestId responseTo name m)
            | None => (Malformed, m)
            end
        | _, _, _ => (Malformed, m)
        end
  end.

(** Modelled from the spec: the missing decoder in the shape [Parse]
    calls it, [(ok, complete)] and the stream with the message as the
    decoder left it.  Malformed is [not ok]; need of more data is [ok] and
    [not complete]. *)
Definition parserOfDecoder (stream : MongodbStream) : bool * bool * MongodbStream :=
  match s_message stream with
  | Some m =>
      match decodeMessage (s_data stream) m with
      | (NeedMoreData, m') => (true, false, set_message (Some m') stream)
      | (Malformed, m') => (false, false, set_message (Some m') stream)
      | (Complete _, m') => (true, true, set_message (Some m') stream)
      end
  | None => (false, false, stream)
  end.

End Decoder.

(** ** Sample inputs *)

(** The dotted form of an address. *)
Definition dotted (ip : list N) : string :=
  String.concat "." (pretty <$> ip).

Definition sample_conf : Config :=
  {| conf_Send_request := None; conf_Send_response := None |}.

Definition client_server : TcpTuple :=
  {| Src_ip := [10; 0; 0; 1]%N; Src_port := 40000;
     Dst_ip := [10; 0; 0; 2]%N; Dst_port := 27017 |}.

Definition message (ts : Z) (dir : Z) (is_response : bool) (method error : string)
    (fields : MapStr) : MongodbMessage :=
  {| m_Ts := ts; m_TcpTuple := client_server; m_CmdlineTuple := zeroCmdlineTuple;
     m_Direction := dir; m_IsResponse := is_response;
     m_ExpectsResponse := negb is_response;
     m_messageLength := 0; m_requestId := 0; m_responseTo := 0;
     m_opCode := if is_response then "OP_REPLY" else "OP_QUERY";
     m_method := method; m_error := error; m_event := fields |}.

Definition count_users : MongodbMessage :=
  message 0 1 false "count" ""
    {[ "fullCollectionName"%string := VString "db.users" ]}.

Definition find_orders : MongodbMessage :=
  message 7000000 1 false "find" ""
    {[ "fullCollectionName"%string := VString "db.orders" ]}.

Definition reply_after (ns : Z) (error : string) : MongodbMessage :=
  message ns 0 true "" error {[ "numberReturned"%string := VInt 1 ]}.

Definition started (attached : bool) : State :=
  Init true sample_conf (if attached then Some [] else None).

Definition bytes_of (l : list Z) : list Byte.byte :=
  (λ n, default Byte.x00 (Byte.of_N (Z.to_N n))) <$> l.

(** A sixteen-byte message: length 16, request id 1, the opcode given by
    its two low bytes. *)
Definition header_only (code0 code1 : Z) : list Byte.byte :=
  bytes_of [16; 0; 0; 0;  1; 0; 0; 0;  0; 0; 0; 0;  code0; code1; 0; 0].

Definition acceptBody (name : string) (data : list Byte.byte) (m : MongodbMessage)
    : DecodeResult * MongodbMessage :=
  (Complete (m_messageLength m), m).

(** A body decoder that goes by the header alone: a reply is a response, and
    the method is the name of the opcode. *)
Definition headerBody (name : string) (data : list Byte.byte) (m : MongodbMessage)
    : DecodeResult * MongodbMessage :=
  (Complete (m_messageLength m),
   {| m_Ts := m_Ts m; m_TcpTuple := m_TcpTuple m; m_CmdlineTuple := m_CmdlineTuple m;
      m_Direction := m_Direction m;
      m_IsResponse := bool_decide (name = "OP_REPLY"%string);
      m_ExpectsResponse := negb (bool_decide (name = "OP_REPLY"%string));
      m_messageLength := m_messageLength m; m_requestId := m_requestId m;
      m_responseTo := m_responseTo m; m_opCode := m_opCode m;
      m_method := name; m_error := m_error m; m_event := m_event m |}).

Definition no_processes (t : TcpTuple) : CmdlineTuple := zeroCmdlineTuple.

Definition packet (payload : list Z) (ts : Z) : Packet :=
  {| Payload := bytes_of payload; pkt_Ts := ts |}.

(** States and buffers reached from the sample inputs. *)
Definition one_open : State :=
  run dotted 0 [ARequest count_users] (started true).

Definition answered_late : State :=
  run dotted 0
    [ARequest count_users; AElapse 0%nat; AResponse (reply_after 5000000 "")]
    (started true).

Definition reopened : State :=
  run dotted 0
    [ARequest count_users; AElapse 0%nat; AResponse (reply_after 5000000 "");
     ARequest find_orders]
    (started true).

Definition six_buffered : mongodbPrivateData :=
  {| Data0 := Some (newStream (packet [40; 0; 0; 0; 1; 0] 0) client_server);
     Data1 := None |}.

Definition two_messages : MongodbStream :=
  {| s_tcptuple := client_server;
     s_data := header_only 212 7 ++ bytes_of [16; 0; 0; 0];
     s_parseOffset := 0; s_bytesReceived := 0;
     s_message := Some (set_header 16 1 0 "OP_QUERY" (newMessage 42)) |}.

Definition sampleParse : nat → Packet → TcpTuple → Z → option mongodbPrivateData →
    State → ParseResult :=
  Parse dotted 0 no_processes 1000 (parserOfDecoder headerBody).

(** A query of sixteen bytes from the client at time 0. *)
Definition after_query : ParseResult :=
  sampleParse 2 (packet [16; 0; 0; 0;  1; 0; 0; 0;  0; 0; 0; 0;  212; 7; 0; 0] 0)
    client_server 1 None (started true).

(** A decoder makes progress when a message it reports complete has a
    positive length and the buffer it returns is no longer than the one it
    was given. *)
Definition productive (parser : MongodbStream → bool * bool * MongodbStream) : Prop :=
  ∀ s s', parser s = (true, true, s') →
    (length (s_data s') ≤ length (s_data s))%nat ∧
    ∀ m, s_message s' = Some m → 0 < m_messageLength m.

(** ** Definitions for the further properties *)

(** A second invariant of the reachable states, on the byte counters and
    the timers: no byte is ever counted; every timer has the duration
    [TransactionTimeout] and is bound to an allocated transaction; a
    waiting timer is the one its transaction records; and the timer
    recorded by a transaction of the table is bound to it and is waiting or
    has elapsed. *)
Record tidy (st : State) : Prop := {
  tidy_bytes : ∀ a t, heap st !! a = Some t → t_BytesIn t = 0 ∧ t_BytesOut t = 0;
  tidy_timers : ∀ id tm, timers st !! id = Some tm →
    tm_duration tm = TransactionTimeout ∧ (tm_trans tm < length (heap st))%nat;
  tidy_armed : ∀ id tm, timers st !! id = Some tm → tm_status tm = TimerArmed →
    ∃ t, heap st !! tm_trans tm = Some t ∧ t_timer t = Some id;
  tidy_live : ∀ k a t id,
    transactionsMap st !! k = Some a → heap st !! a = Some t → t_timer t = Some id →
    ∃ tm, timers st !! id = Some tm ∧ tm_trans tm = a ∧
          (tm_status tm = TimerArmed ∨ tm_status tm = TimerExpired);
}.

(** The event a response [resp] publishes for a request [req] that opened a
    new transaction. *)
Definition firstEvent (IP_String : list N → string) (TcpDirectionReverse : Z)
    (req resp : MongodbMessage) : Event :=
  eventOf
    (recordError
       (storeResponse resp
          (storeRequest IP_String TcpDirectionReverse req
             (newTransaction (m_TcpTuple req))))).

(** The number of responses among the actions of a run. *)
Fixpoint responses (acts : list Action) : nat :=
  match acts with
  | [] => 0
  | AResponse _ :: rest => S (responses rest)
  | _ :: rest => responses rest
  end.

(** A timer that has not been stopped and whose callback has not run. *)
Definition live (tm : Timer) : Prop :=
  tm_status tm = TimerArmed ∨ tm_status tm = TimerExpired.

(** What one action adds to the log of warnings. *)
Definition warned (act : Action) (st : State) : list string :=
  match act with
  | ARequest msg =>
      match transactionsMap st !! Hashable (m_TcpTuple msg) with
      | Some _ => ["Two requests without a Response. Dropping old request"%string]
      | None => []
      end
  | AResponse msg =>
      match transactionsMap st !! Hashable (m_TcpTuple msg) with
      | Some _ => []
      | None => ["Response from unknown transaction. Ignoring."%string]
      end
  | AElapse _ | ACallback _ => []
  end.

(** The two endpoints of the connection a message travels on, with the
    process names found for it. *)
Definition sourceOf (IP_String : list N → string) (msg : MongodbMessage) : Endpoint :=
  {| Ip := IP_String (Src_ip (m_TcpTuple msg)); Port := Src_port (m_TcpTuple msg);
     Proc := cl_Src (m_CmdlineTuple msg) |}.

Definition destinationOf (IP_String : list N → string) (msg : MongodbMessage) : Endpoint :=
  {| Ip := IP_String (Dst_ip (m_TcpTuple msg)); Port := Dst_port (m_TcpTuple msg);
     Proc := cl_Dst (m_CmdlineTuple msg) |}.

(** A transaction that is allocated and that no entry of the table points
    to: it was answered or it timed out. *)
Definition closed (st : State) (a : addr) : Prop :=
  (a < length (heap st))%nat ∧ ∀ k, transactionsMap st !! k ≠ Some a.

(** The bytes a direction has buffered before a packet arrives. *)
Definition buffered (private : option mongodbPrivateData) (dir : Z) : list Byte.byte :=
  match getData (default emptyPrivateData private) dir with
  | Some (Some old) => s_data old
  | _ => []
  end.

(** A decoder that leaves the buffer of the stream as it found it. *)
Definition keeps_data (parser : MongodbStream → bool * bool * MongodbStream) : Prop :=
  ∀ s, s_data (parser s).2 = s_data s.

(** A decoder that leaves the timestamp of the message in progress as it
    found it. *)
Definition keeps_Ts (parser : MongodbStream → bool * bool * MongodbStream) : Prop :=
  ∀ s m m', s_message s = Some m → s_message (parser s).2 = Some m' → m_Ts m' = m_Ts m.

(** A decoder that reports a complete message of length zero on every
    buffer that is not empty. *)
Definition completes_nothing (parser : MongodbStream → bool * bool * MongodbStream) : Prop :=
  ∀ s, s_data s ≠ [] →
    ∃ m s', parser s = (true, true, s') ∧ s_data s' = s_data s ∧
            s_message s' = Some m ∧ m_messageLength m = 0.

Definition zeroParser (s : MongodbStream) : bool * bool * MongodbStream :=
  (true, true, set_message (Some (newMessage 0)) s).

(** A direction whose buffer was created at time 0 and is empty again. *)
Definition idle_since_zero : mongodbPrivateData :=
  {| Data0 := None;
     Data1 := Some {| s_tcptuple := client_server; s_data := []; s_parseOffset := 0;
                      s_bytesReceived := 0; s_message := Some (newMessage 0) |} |}.

Definition server_client : TcpTuple :=
  {| Src_ip := [10; 0; 0; 2]%N; Src_port := 27017;
     Dst_ip := [10; 0; 0; 9]%N; Dst_port := 51000 |}.

(** A request on another connection. *)
Definition ping_other : MongodbMessage :=
  {| m_Ts := 3000000; m_TcpTuple := server_client; m_CmdlineTuple := zeroCmdlineTuple;
     m_Direction := 1; m_IsResponse := false; m_ExpectsResponse := true;
     m_messageLength := 0; m_requestId := 0; m_responseTo := 0;
     m_opCode := "OP_QUERY"; m_method := "ping"; m_error := ""; m_event := ∅ |}.

(** An unanswered request whose timer has elapsed, its callback not yet
    run. *)
Definition elapsed_open : State :=
  run dotted 0 [ARequest count_users; AElapse 0%nat] (started true).


(** * Properties *)

(** ** Field maps *)

Lemma mergeEvent_union (resp req : MapStr) : mergeEvent resp req = resp ∪ req.
Proof.
  unfold mergeEvent.
  apply (map_fold_weak_ind (λ acc m, acc = m ∪ req)).
  - by rewrite (left_id_L ∅ (∪)).
  - intros k v m acc Hk ->. by rewrite insert_union_l.
Qed.

Lemma mergeEvent_lookup (resp req : MapStr) k :
  mergeEvent resp req !! k =
    match resp !! k with Some v => Some v | None => req !! k end.
Proof.
  rewrite mergeEvent_union, lookup_union.
  destruct (resp !! k), (req !! k); done.
Qed.

(** ** Timers *)

Lemma stopped_not_armed tm : tm_status (stopped tm) ≠ TimerArmed.
Proof. unfold stopped. destruct (tm_status tm) eqn:E; simpl; congruence. Qed.

Section CorrelatorFacts.

Variable IP_String : list N → string.
Variable TcpDirectionReverse : Z.

Local Abbreviation request := (receivedMongodbRequest IP_String TcpDirectionReverse).
Local Abbreviation response := receivedMongodbResponse.
Local Abbreviation store := (storeRequest IP_String TcpDirectionReverse).

Lemma length_stopTimerOf trans ts : length (stopTimerOf trans ts) = length ts.
Proof. unfold stopTimerOf. destruct (t_timer trans); [apply length_alter | done]. Qed.

(** The state after [rearm], field by field. *)
Lemma rearm_eq a trans st :
  rearm a trans st =
    {| Send_request := Send_request st; Send_response := Send_response st;
       transactionsMap := transactionsMap st; results := results st;
       heap := <[a := set_timer (Some (length (timers st))) trans]> (heap st);
       timers := stopTimerOf trans (timers st) ++
                 [{| tm_duration := TransactionTimeout; tm_trans := a;
                     tm_status := TimerArmed |}];
       warnings := warnings st |}.
Proof.
  unfold rearm, AfterFunc, stopTimerOf, Timer_Stop.
  destruct (t_timer trans); simpl; rewrite ?length_alter; reflexivity.
Qed.

(** *** The well-formedness invariant *)

Lemma wf_Init test_mode conf res : wf (Init test_mode conf res).
Proof.
  split.
  - intros k a. unfold Init. destruct test_mode; simpl; by rewrite lookup_empty.
  - intros a t id. unfold Init. destruct test_mode; simpl; by rewrite lookup_nil.
Qed.

Lemma request_known msg st a trans :
  transactionsMap st !! Hashable (m_TcpTuple msg) = Some a →
  heap st !! a = Some trans →
  request msg st =
    rearm a (store msg trans)
      (set_heap <[a := store msg trans]>
         (match t_Mongodb trans with
          | Some _ => Warn "Two requests without a Response. Dropping old request" st
          | None => st
          end)).
Proof. intros Hk Ha. unfold receivedMongodbRequest. by rewrite Hk, Ha. Qed.

Lemma request_unknown msg st :
  transactionsMap st !! Hashable (m_TcpTuple msg) = None →
  request msg st =
    let a := length (heap st) in
    let trans := store msg (newTransaction (m_TcpTuple msg)) in
    rearm a trans
      (set_heap <[a := trans]>
         (set_transactionsMap <[Hashable (m_TcpTuple msg) := a]>
            (set_heap (λ h, h ++ [newTransaction (m_TcpTuple msg)]) st))).
Proof. intros Hk. unfold receivedMongodbRequest. by rewrite Hk. Qed.

Lemma wf_request msg st : wf st → wf (request msg st).
Proof.
  intros [Ht Hm].
  destruct (transactionsMap st !! Hashable (m_TcpTuple msg)) as [a|] eqn:Hk.
  - destruct (Ht _ _ Hk) as (t & Ha & Hkey & Ho & _).
    rewrite (request_known _ _ _ _ Hk Ha), rearm_eq.
    assert (Hlt : (a < length (heap st))%nat) by by eapply lookup_lt_Some.
    destruct Ho as [ev Ho]. rewrite Ho. simpl.
    split; simpl.
    + intros k b Hb. destruct (decide (b = a)) as [->|Hne].
      * exists (set_timer (Some (length (timers st))) (store msg t)).
        rewrite list_lookup_insert_eq by (rewrite length_insert; done).
        destruct (Ht _ _ Hb) as (t' & Ha' & Hkey' & _).
        assert (t' = t) by congruence. subst t'.
        split; [done|]. split; [done|]. split; by eexists.
      * destruct (Ht _ _ Hb) as (t' & Ha' & Hkey' & Ho').
        exists t'. by rewrite !list_lookup_insert_ne.
    + intros b t' id Hb Hid. rewrite length_app, length_stopTimerOf. simpl.
      destruct (decide (b = a)) as [->|Hne].
      * rewrite list_lookup_insert_eq in Hb by (rewrite length_insert; done).
        injection Hb as <-. simpl in Hid. injection Hid as <-. lia.
      * rewrite !list_lookup_insert_ne in Hb by done.
        specialize (Hm _ _ _ Hb Hid). lia.
  - rewrite (request_unknown _ _ Hk), rearm_eq. simpl.
    split; simpl.
    + intros k b Hb.
      rewrite list_insert_insert_eq.
      destruct (decide (k = Hashable (m_TcpTuple msg))) as [->|Hne].
      * rewrite lookup_insert_eq in Hb. injection Hb as <-.
        eexists. rewrite list_lookup_insert_eq by (rewrite length_app; simpl; lia).
        split; [done|]. split; [done|]. split; by eexists.
      * rewrite lookup_insert_ne in Hb by done.
        destruct (Ht _ _ Hb) as (t' & Ha' & Hkey' & Ho').
        exists t'. pose proof (lookup_lt_Some _ _ _ Ha').
        rewrite list_lookup_insert_ne by lia.
        by rewrite lookup_app_l.
    + intros b t' id Hb Hid. rewrite length_app, length_stopTimerOf. simpl.
      rewrite list_insert_insert_eq in Hb.
      destruct (decide (b = length (heap st))) as [->|Hne].
      * rewrite list_lookup_insert_eq in Hb by (rewrite length_app; simpl; lia).
        injection Hb as <-. simpl in Hid. injection Hid as <-. lia.
      * rewrite list_lookup_insert_ne in Hb by done.
        apply lookup_app_Some in Hb as [Hb|[_ Hb]].
        -- specialize (Hm _ _ _ Hb Hid). lia.
        -- destruct (b - length (heap st))%nat; simpl in Hb; [|done].
           injection Hb as <-. done.
Qed.

(** *** A response to an open transaction *)

Lemma response_open msg st a trans ev0 :
  transactionsMap st !! Hashable (m_TcpTuple msg) = Some a →
  heap st !! a = Some trans →
  t_Mongodb trans = Some ev0 →
  response msg st =
    let trans1 := storeResponse msg trans in
    {| Send_request := Send_request st; Send_response := Send_response st;
       transactionsMap := delete (Hashable (t_tuple trans)) (transactionsMap st);
       results := (λ sent, sent ++ [eventOf (recordError trans1)]) <$> results st;
       heap := <[a := if results st is Some _ then recordError trans1 else trans1]> (heap st);
       timers := stopTimerOf trans (timers st);
       warnings := warnings st |}.
Proof.
  intros Hk Ha Ho. unfold receivedMongodbResponse. rewrite Hk, Ha, Ho.
  assert (Hlt : (a < length (heap st))%nat) by by eapply lookup_lt_Some.
  unfold publishTransaction, stopTimerOf, Timer_Stop. simpl.
  destruct (results st) as [sent|] eqn:Hr; simpl.
  - rewrite list_lookup_insert_eq by done. simpl.
    destruct (t_timer trans);
      unfold set_timers, set_transactionsMap, set_results, set_heap; simpl;
      rewrite list_insert_insert_eq; reflexivity.
  - destruct (t_timer trans), st; simpl in *; subst; reflexivity.
Qed.

Lemma response_orphan msg st :
  (∀ a t, transactionsMap st !! Hashable (m_TcpTuple msg) = Some a →
          heap st !! a = Some t → t_Mongodb t = None) →
  response msg st = st ∨
  response msg st = Warn "Response from unknown transaction. Ignoring." st.
Proof.
  intros Hno. unfold receivedMongodbResponse.
  destruct (transactionsMap st !! _) as [a|] eqn:Hk; [|by right].
  destruct (heap st !! a) as [t|] eqn:Ha; [|by left].
  rewrite (Hno _ _ eq_refl Ha). by right.
Qed.

Lemma recordError_tuple t : t_tuple (recordError t) = t_tuple t.
Proof. unfold recordError. by destruct (decide _). Qed.
Lemma recordError_Mongodb t : t_Mongodb (recordError t) = t_Mongodb t.
Proof. unfold recordError. by destruct (decide _). Qed.
Lemma recordError_timer t : t_timer (recordError t) = t_timer t.
Proof. unfold recordError. by destruct (decide _). Qed.

Lemma wf_Warn s st : wf st → wf (Warn s st).
Proof. intros [Ht Hm]. split; simpl; eauto. Qed.

Lemma wf_response msg st : wf st → wf (response msg st).
Proof.
  intros Hwf. pose proof Hwf as [Ht Hm].
  destruct (transactionsMap st !! Hashable (m_TcpTuple msg)) as [a|] eqn:Hk.
  - destruct (Ht _ _ Hk) as (t & Ha & Hkey & [ev0 Ho] & _).
    rewrite (response_open _ _ _ _ _ Hk Ha Ho). simpl.
    assert (Hlt : (a < length (heap st))%nat) by by eapply lookup_lt_Some.
    set (t1 := match results st with Some _ => _ | None => _ end).
    assert (Ht1 : t_tuple t1 = t_tuple t ∧ t_Mongodb t1 = t_Mongodb t ∧
                  t_timer t1 = t_timer t).
    { subst t1. destruct (results st);
        rewrite ?recordError_tuple, ?recordError_Mongodb, ?recordError_timer; done. }
    destruct Ht1 as (Et & Em & Ei).
    split; simpl.
    + intros k b Hb. apply lookup_delete_Some in Hb as [Hne Hb].
      destruct (Ht _ _ Hb) as (t' & Ha' & Hkey' & Ho' & Hi').
      destruct (decide (b = a)) as [->|Hba].
      * exists t1. rewrite list_lookup_insert_eq by done.
        assert (t' = t) by congruence. subst t'.
        rewrite Et, Em, Ei. done.
      * exists t'. by rewrite list_lookup_insert_ne.
    + intros b t' id Hb Hid. rewrite length_stopTimerOf.
      destruct (decide (b = a)) as [->|Hba].
      * rewrite list_lookup_insert_eq in Hb by done. injection Hb as <-.
        rewrite Ei in Hid. eauto.
      * rewrite list_lookup_insert_ne in Hb by done. eauto.
  - unfold receivedMongodbResponse. rewrite Hk. by apply wf_Warn.
Qed.

Lemma wf_elapse id st : wf st → wf (elapse id st).
Proof.
  intros [Ht Hm]. unfold elapse. split; simpl; [done|].
  intros. rewrite length_alter. eauto.
Qed.

Lemma wf_expireTransaction a st : wf st → wf (expireTransaction a st).
Proof.
  intros [Ht Hm]. unfold expireTransaction.
  destruct (heap st !! a); [|done].
  split; simpl; [|done].
  intros k b Hb. apply lookup_delete_Some in Hb as [_ Hb]. eauto.
Qed.

Lemma wf_callback id st : wf st → wf (callback id st).
Proof.
  intros Hwf. unfold callback.
  destruct (timers st !! id) as [tm|]; [|done].
  destruct (tm_status tm); try done.
  apply wf_expireTransaction. destruct Hwf as [Ht Hm].
  split; simpl; [done|]. intros. rewrite length_insert. eauto.
Qed.

Lemma wf_step act st : wf st → wf (step IP_String TcpDirectionReverse act st).
Proof.
  destruct act; simpl;
    auto using wf_request, wf_response, wf_elapse, wf_callback.
Qed.

Lemma reachable_wf st : reachable IP_String TcpDirectionReverse st → wf st.
Proof. induction 1; [apply wf_Init | by apply wf_step]. Qed.

(** *** What a request leaves behind *)

Lemma request_entry msg st :
  wf st →
  ∃ a base,
    Hashable (t_tuple base) = Hashable (m_TcpTuple msg) ∧
    (transactionsMap st !! Hashable (m_TcpTuple msg) = None →
       a = length (heap st) ∧ base = newTransaction (m_TcpTuple msg)) ∧
    (∀ b, transactionsMap st !! Hashable (m_TcpTuple msg) = Some b →
       b = a ∧ heap st !! a = Some base) ∧
    transactionsMap (request msg st) =
      <[Hashable (m_TcpTuple msg) := a]> (transactionsMap st) ∧
    heap (request msg st) !! a =
      Some (set_timer (Some (length (timers st))) (store msg base)) ∧
    results (request msg st) = results st ∧
    timers (request msg st) = stopTimerOf base (timers st) ++ [armedFor a].
Proof.
  intros [Ht Hm].
  destruct (transactionsMap st !! Hashable (m_TcpTuple msg)) as [a|] eqn:Hk.
  - destruct (Ht _ _ Hk) as (t & Ha & Hkey & [ev0 Ho] & _).
    assert (Hlt : (a < length (heap st))%nat) by by eapply lookup_lt_Some.
    exists a, t. rewrite (request_known _ _ _ _ Hk Ha), rearm_eq, Ho. simpl.
    split; [done|]. split; [done|]. split; [by intros b [= <-]|].
    split; [by rewrite insert_id|].
    split; [|done].
    rewrite list_lookup_insert_eq by (by rewrite length_insert). done.
  - exists (length (heap st)), (newTransaction (m_TcpTuple msg)).
    rewrite (request_unknown _ _ Hk), rearm_eq. simpl.
    split; [done|]. split; [done|]. split; [done|]. split; [done|].
    split; [|done].
    rewrite list_lookup_insert_eq; [done|].
    rewrite length_insert, length_app. simpl. lia.
Qed.

Lemma request_response req resp st :
  wf st →
  Hashable (m_TcpTuple resp) = Hashable (m_TcpTuple req) →
  ∃ base,
    results (request req st) = results st ∧
    results (response resp (request req st)) =
      (λ sent, sent ++ [eventOf (answered IP_String TcpDirectionReverse req resp base (length (timers st)))])
        <$> results st ∧
    transactionsMap (response resp (request req st)) =
      delete (Hashable (m_TcpTuple req)) (transactionsMap st).
Proof.
  intros Hwf Hsame.
  destruct (request_entry req st Hwf)
    as (a & base & Hkey & _ & _ & Hmap & Hheap & Hres & _).
  exists base. split; [done|].
  assert (Hk : transactionsMap (request req st) !! Hashable (m_TcpTuple resp) = Some a).
  { by rewrite Hmap, Hsame, lookup_insert_eq. }
  rewrite (response_open _ _ _ _ ∅ Hk Hheap) by done. simpl.
  rewrite Hres, Hmap, Hkey. split; [done|].
  by rewrite delete_insert_eq.
Qed.

Lemma answered_event req resp base id k :
  t_event (answered IP_String TcpDirectionReverse req resp base id) !! k =
    if decide (k = "error"%string ∧ m_error resp ≠ ""%string)
    then Some (VString (m_error resp))
    else match m_event resp !! k with
         | Some v => Some v
         | None => m_event req !! k
         end.
Proof.
  unfold answered, recordError. simpl.
  destruct (decide (m_error resp = ""%string)) as [He|He]; simpl.
  - rewrite decide_False by tauto. apply mergeEvent_lookup.
  - destruct (decide (k = "error"%string)) as [->|Hk].
    + rewrite decide_True by done. by rewrite lookup_insert_eq.
    + rewrite decide_False by tauto.
      rewrite lookup_insert_ne by done. apply mergeEvent_lookup.
Qed.

Lemma answered_ResponseTime req resp base id :
  t_ResponseTime (answered IP_String TcpDirectionReverse req resp base id) =
    int32_of (Nanoseconds (Time_Sub (m_Ts resp) (m_Ts req)) ÷ 1000000).
Proof. unfold answered, recordError. by destruct (decide _). Qed.


Local Abbreviation Reachable := (reachable IP_String TcpDirectionReverse).

(** C1 (as amended).  A request followed by a response on the same
    connection, whatever the direction of either, publishes exactly one
    event when a results channel is attached: the request publishes
    nothing and the response appends one.  The field map of the event
    holds the fields of the request overlaid by those of the response,
    the response winning on a shared key, and overlaid again by an
    [error] entry with the error text of the response when that text is
    not empty.  Without a results channel nothing is published.  Either
    way the entry of the connection is gone from the table afterwards. *)
Theorem request_response_publishes_once st req resp :
  Reachable st →
  Hashable (m_TcpTuple resp) = Hashable (m_TcpTuple req) →
  results (request req st) = results st ∧
  (∀ sent, results st = Some sent →
     ∃ ev,
       results (response resp (request req st)) = Some (sent ++ [ev]) ∧
       ∀ k, ev_mongodb ev !! k =
              if decide (k = "error"%string ∧ m_error resp ≠ ""%string)
              then Some (VString (m_error resp))
              else match m_event resp !! k with
                   | Some v => Some v
                   | None => m_event req !! k
                   end) ∧
  (results st = None → results (response resp (request req st)) = None) ∧
  transactionsMap (response resp (request req st)) !! Hashable (m_TcpTuple req) = None.
Proof.
  intros Hreach Hsame.
  destruct (request_response req resp st (reachable_wf _ Hreach) Hsame)
    as (base & H1 & H2 & H3).
  rewrite H1, H2, H3.
  split; [done|]. split; [|split].
  - intros sent ->. simpl. eexists. split; [done|].
    intros k. apply answered_event.
  - by intros ->.
  - apply lookup_delete_eq.
Qed.

(** C2 (as amended).  In every reachable state no two entries of the table
    hold transactions of the same connection identity.  A request that
    finds an entry for its connection keeps the table as it is, logs the
    warning, publishes nothing and overwrites the stored data with its own:
    the method, the fields, the three timestamps, the process names and
    the two endpoints, which are those of the request's connection,
    exchanged when the request travelled in the reverse direction.  The
    timer the entry holds, when it is still waiting, is stopped, and a new
    waiting timer, another one, is made for the transaction and recorded in
    the entry. *)
Theorem one_open_transaction_per_connection st :
  Reachable st →
  (∀ k1 k2 a1 a2 t1 t2,
     transactionsMap st !! k1 = Some a1 → heap st !! a1 = Some t1 →
     transactionsMap st !! k2 = Some a2 → heap st !! a2 = Some t2 →
     Hashable (t_tuple t1) = Hashable (t_tuple t2) →
     k1 = k2 ∧ a1 = a2 ∧ is_Some (t_Mongodb t1)) ∧
  (∀ msg a old,
     transactionsMap st !! Hashable (m_TcpTuple msg) = Some a →
     heap st !! a = Some old →
     let st' := request msg st in
     transactionsMap st' = transactionsMap st ∧
     warnings st' =
       warnings st ++ ["Two requests without a Response. Dropping old request"%string] ∧
     results st' = results st ∧
     (∃ new,
        heap st' !! a = Some new ∧
        t_method new = m_method msg ∧ t_event new = m_event msg ∧
        t_ts new = m_Ts msg ∧ t_JsTs new = m_Ts msg ∧
        t_Ts new = int64_of (UnixNano (m_Ts msg) ÷ 1000) ∧
        t_cmdline new = m_CmdlineTuple msg ∧
        (m_Direction msg = TcpDirectionReverse →
           t_Src new = destinationOf IP_String msg ∧ t_Dst new = sourceOf IP_String msg) ∧
        (m_Direction msg ≠ TcpDirectionReverse →
           t_Src new = sourceOf IP_String msg ∧ t_Dst new = destinationOf IP_String msg) ∧
        t_Mongodb new = Some ∅ ∧
        t_tuple new = t_tuple old ∧
        t_timer new = Some (length (timers st))) ∧
     (∃ id tm,
        t_timer old = Some id ∧ timers st !! id = Some tm ∧
        id ≠ length (timers st) ∧
        (tm_status tm = TimerArmed →
           timers st' !! id = Some (set_status TimerStopped tm))) ∧
     timers st' !! length (timers st) =
       Some {| tm_duration := TransactionTimeout; tm_trans := a;
               tm_status := TimerArmed |}).
Proof.
  intros Hreach. pose proof (reachable_wf _ Hreach) as Hwf.
  pose proof Hwf as [Ht Hm]. split.
  - intros k1 k2 a1 a2 t1 t2 Hk1 Ha1 Hk2 Ha2 Hsame.
    destruct (Ht _ _ Hk1) as (u1 & Hu1 & Hkey1 & Ho1 & _).
    destruct (Ht _ _ Hk2) as (u2 & Hu2 & Hkey2 & Ho2 & _).
    assert (u1 = t1) by congruence. assert (u2 = t2) by congruence. subst.
    assert (Hk : Hashable (t_tuple t1) = Hashable (t_tuple t2)) by done.
    split; [done|]. split; [|done].
    rewrite Hk in Hk1. congruence.
  - intros msg a old Hk Ha st'. subst st'.
    destruct (Ht _ _ Hk) as (u & Hu & Hkey & [ev0 Ho] & [id Hid]).
    assert (u = old) by congruence. subst u.
    pose proof (Hm _ _ _ Ha Hid) as Hidlt.
    destruct (lookup_lt_is_Some_2 _ _ Hidlt) as [tm Htm].
    assert (Hlt : (a < length (heap st))%nat) by by eapply lookup_lt_Some.
    rewrite (request_known _ _ _ _ Hk Ha), rearm_eq, Ho. simpl.
    split; [done|]. split; [done|]. split; [done|]. split.
    { eexists. rewrite list_lookup_insert_eq by (by rewrite length_insert).
      split; [done|]. simpl. do 6 (split; [done|]).
      split; [|split]; [| |done].
      - intros Hdir. by rewrite bool_decide_eq_true_2.
      - intros Hdir. by rewrite bool_decide_eq_false_2. }
    split.
    + exists id, tm. split; [done|]. split; [done|]. split; [lia|].
      intros Harmed. unfold stopTimerOf. simpl. rewrite Hid.
      rewrite lookup_app_l by (by rewrite length_alter).
      rewrite list_lookup_alter_eq, Htm. simpl.
      unfold stopped. by rewrite Harmed.
    + rewrite lookup_app_r by (by rewrite length_stopTimerOf).
      by rewrite length_stopTimerOf, Nat.sub_diag.
Qed.

(** C3.  The timer a request arms is set to [TransactionTimeout], ten
    seconds, and is bound to the transaction stored for the connection.
    When its delay elapses and its callback runs with no response in
    between, the entry of the connection is gone from the table and the
    published events are those from before the request.  In general the
    callback of any elapsed timer leaves no entry under the key of its
    transaction and publishes nothing. *)
Theorem timeout_removes_without_publishing st msg :
  Reachable st →
  let key := Hashable (m_TcpTuple msg) in
  let id := length (timers st) in
  let st1 := request msg st in
  let st2 := callback id (elapse id st1) in
  TransactionTimeout = 10 * Second ∧
  (∃ a, transactionsMap st1 !! key = Some a ∧
        timers st1 !! id =
          Some {| tm_duration := TransactionTimeout; tm_trans := a;
                  tm_status := TimerArmed |}) ∧
  transactionsMap st2 !! key = None ∧
  results st2 = results st ∧
  (∀ id' tm trans,
     timers st !! id' = Some tm → tm_status tm = TimerExpired →
     heap st !! tm_trans tm = Some trans →
     transactionsMap (callback id' st) !! Hashable (t_tuple trans) = None ∧
     results (callback id' st) = results st).
Proof.
  intros Hreach key id st1 st2. pose proof (reachable_wf _ Hreach) as Hwf.
  destruct (request_entry msg st Hwf)
    as (a & base & Hkey & _ & _ & Hmap & Hheap & Hres & Htm).
  fold st1 in Hmap, Hheap, Hres, Htm.
  assert (Hid : timers st1 !! id = Some (armedFor a)).
  { rewrite Htm. subst id.
    rewrite lookup_app_r by (by rewrite length_stopTimerOf).
    by rewrite length_stopTimerOf, Nat.sub_diag. }
  split; [done|]. split.
  { exists a. split; [|done]. subst key. by rewrite Hmap, lookup_insert_eq. }
  assert (Hst2 : st2 = expireTransaction a
            (set_timers <[id := set_status TimerDone (set_status TimerExpired (armedFor a))]>
               (elapse id st1))).
  { subst st2. unfold callback. unfold elapse at 1. simpl.
    rewrite list_lookup_alter_eq, Hid. reflexivity. }
  rewrite Hst2. unfold expireTransaction. simpl. rewrite Hheap. simpl.
  split; [rewrite Hkey; apply lookup_delete_eq|].
  split; [done|].
  intros id' tm trans Hid' Hst Htr.
  unfold callback, expireTransaction. rewrite Hid', Hst. simpl. rewrite Htr. simpl.
  split; [apply lookup_delete_eq | done].
Qed.

(** C6 (as amended).  A timer callback that runs when no entry is stored
    under the connection key of its transaction changes nothing but the
    status of the timer: the deletion is by key on the table as it is
    then, so the table, the transactions, the published events and the
    log stay as they were. *)
Theorem timeout_without_entry_is_noop st id tm trans :
  timers st !! id = Some tm →
  tm_status tm = TimerExpired →
  heap st !! tm_trans tm = Some trans →
  transactionsMap st !! Hashable (t_tuple trans) = None →
  expireTransaction (tm_trans tm) st = st ∧
  transactionsMap (callback id st) = transactionsMap st ∧
  heap (callback id st) = heap st ∧
  results (callback id st) = results st ∧
  warnings (callback id st) = warnings st.
Proof.
  intros Htm Hst Ha Hk.
  unfold callback, expireTransaction. rewrite Htm, Hst. simpl. rewrite Ha.
  unfold set_transactionsMap. simpl. rewrite (delete_id _ _ Hk).
  split; [by destruct st|]. done.
Qed.

(** C7.  A response on a connection for which the table holds no open
    transaction publishes nothing and leaves the table, the transactions
    and the timers as they were. *)
Theorem orphan_response_discarded st msg :
  (∀ a t, transactionsMap st !! Hashable (m_TcpTuple msg) = Some a →
          heap st !! a = Some t → t_Mongodb t = None) →
  results (response msg st) = results st ∧
  transactionsMap (response msg st) = transactionsMap st ∧
  heap (response msg st) = heap st ∧
  timers (response msg st) = timers st.
Proof.
  intros Hno. destruct (response_orphan msg st Hno) as [-> | ->]; done.
Qed.

(** C9 (as amended).  The response time of the published event is the
    difference of the two capture times in nanoseconds, divided by a
    million with truncation and converted to a signed 32-bit integer.
    When the truncated number of milliseconds fits in 32 bits it is that
    number: nonnegative when the response is not earlier than the
    request, and 5 for a response five milliseconds after its request. *)
Theorem responsetime_truncated_ms st sent req resp :
  Reachable st →
  results st = Some sent →
  Hashable (m_TcpTuple resp) = Hashable (m_TcpTuple req) →
  ∃ ev,
    results (response resp (request req st)) = Some (sent ++ [ev]) ∧
    ev_responsetime ev =
      int32_of (Nanoseconds (Time_Sub (m_Ts resp) (m_Ts req)) ÷ 1000000) ∧
    (- 2 ^ 31 ≤ (m_Ts resp - m_Ts req) ÷ 1000000 < 2 ^ 31 →
       ev_responsetime ev = (m_Ts resp - m_Ts req) ÷ 1000000 ∧
       (m_Ts req ≤ m_Ts resp → 0 ≤ ev_responsetime ev) ∧
       (m_Ts resp = m_Ts req + 5 * Millisecond → ev_responsetime ev = 5)).
Proof.
  intros Hreach Hres Hsame.
  destruct (request_response req resp st (reachable_wf _ Hreach) Hsame) as (base & H1 & H2 & H3).
  rewrite H2, Hres. simpl. eexists. split; [done|].
  simpl. rewrite answered_ResponseTime. split; [done|].
  intros Hfit.
  assert (Hsub : Time_Sub (m_Ts resp) (m_Ts req) = m_Ts resp - m_Ts req).
  { unfold Time_Sub, minDuration, maxDuration.
    set (d := m_Ts resp - m_Ts req) in *.
    assert (- 2 ^ 63 ≤ d ≤ 2 ^ 63 - 1).
    { pose proof (Z.quot_rem' d 1000000) as Hqr.
      pose proof (Z.rem_bound_abs d 1000000 ltac:(lia)) as Hrb.
      lia. }
    repeat case_decide; lia. }
  unfold Nanoseconds. rewrite Hsub.
  assert (Hid : int32_of ((m_Ts resp - m_Ts req) ÷ 1000000) =
                (m_Ts resp - m_Ts req) ÷ 1000000).
  { unfold int32_of.
    rewrite Z.mod_small by lia. lia. }
  rewrite Hid. split; [done|]. split.
  - intros Hle. apply Z.quot_pos; lia.
  - intros ->. unfold Millisecond.
    replace (m_Ts req + 5 * 10 ^ 6 - m_Ts req) with (5 * 1000000) by lia.
    by rewrite Z.quot_mul.
Qed.

End CorrelatorFacts.

(** ** The stream driver *)

Lemma getData_setData_eq priv dir s :
  is_Some (getData priv dir) → getData (setData priv dir s) dir = Some s.
Proof.
  unfold getData, setData. intros [x Hx].
  repeat case_decide; simplify_eq; simpl; repeat case_decide; done.
Qed.

Lemma getData_setData_ne priv dir d s :
  d ≠ dir → getData (setData priv dir s) d = getData priv d.
Proof.
  unfold getData, setData. intros Hne.
  repeat case_decide; simplify_eq; simpl; done.
Qed.

Section DriverClaims.

Variable IP_String : list N → string.
Variable TcpDirectionReverse : Z.
Variable FindProcessesTuple : TcpTuple → CmdlineTuple.
Variable TCP_MAX_DATA_IN_STREAM : Z.
Variable mongodbMessageParser : MongodbStream → bool * bool * MongodbStream.

Local Abbreviation Parse' :=
  (Parse IP_String TcpDirectionReverse FindProcessesTuple TCP_MAX_DATA_IN_STREAM
     mongodbMessageParser).
Local Abbreviation parseLoop' :=
  (parseLoop IP_String TcpDirectionReverse FindProcessesTuple mongodbMessageParser).
Local Abbreviation handle :=
  (handleMongodb IP_String TcpDirectionReverse FindProcessesTuple).

Lemma Parse_new_stream fuel pkt tcptuple dir private st :
  getData (default emptyPrivateData private) dir = Some None →
  Parse' fuel pkt tcptuple dir private st =
    parseLoop' fuel pkt tcptuple dir (default emptyPrivateData private)
      (newStream pkt tcptuple) st.
Proof. intros H. unfold Parse. by rewrite H. Qed.

(** C5.  When the bytes of a packet, appended to the buffer a direction
    already has, make it longer than the ceiling, [Parse] returns at once:
    the slot of the direction is nil, the other slot and the state of the
    correlator are untouched, and the next packet of the direction starts
    a new buffer holding its payload alone. *)
Theorem oversized_append_discards_direction fuel pkt tcptuple dir priv old st :
  getData priv dir = Some (Some old) →
  TCP_MAX_DATA_IN_STREAM < Z.of_nat (length (s_data old ++ Payload pkt)) →
  Parse' fuel pkt tcptuple dir (Some priv) st =
    Returned (Some (setData priv dir None)) st ∧
  getData (setData priv dir None) dir = Some None ∧
  (∀ d, d ≠ dir → getData (setData priv dir None) d = getData priv d) ∧
  (∀ fuel' pkt' tcptuple' st',
     Parse' fuel' pkt' tcptuple' dir (Some (setData priv dir None)) st' =
       parseLoop' fuel' pkt' tcptuple' dir (setData priv dir None)
         (newStream pkt' tcptuple') st').
Proof.
  intros Hold Hbig.
  assert (Hnil : getData (setData priv dir None) dir = Some None).
  { apply getData_setData_eq. by rewrite Hold. }
  split.
  { unfold Parse. simpl. rewrite Hold. simpl. by rewrite decide_True. }
  split; [done|]. split.
  { intros d Hd. by apply getData_setData_ne. }
  intros. by apply Parse_new_stream.
Qed.

(** C8.  When the message of a stream is complete and its length lies
    within the buffered bytes, [PrepareForNewMessage] drops exactly the
    first [messageLength] bytes, keeps every byte after them, and starts
    a new message that carries the timestamp of the completed one and
    nothing else.  This is the stream with which the loop of [Parse] goes
    on after handing the completed message to the correlator.  With a
    length outside the buffered bytes nothing is consumed: the slice
    expression panics. *)
Theorem completed_message_consumes_its_length stream m :
  s_message stream = Some m →
  (0 ≤ m_messageLength m ≤ Z.of_nat (length (s_data stream)) →
   ∃ next,
     PrepareForNewMessage stream = Some next ∧
     s_data stream = take (Z.to_nat (m_messageLength m)) (s_data stream) ++ s_data next ∧
     Z.of_nat (length (take (Z.to_nat (m_messageLength m)) (s_data stream))) =
       m_messageLength m ∧
     s_message next = Some (newMessage (m_Ts m)) ∧
     m_Ts (newMessage (m_Ts m)) = m_Ts m ∧
     (∀ fuel pkt tcptuple dir priv st raw m0,
        (0 < length (s_data raw))%nat →
        s_message raw = Some m0 →
        mongodbMessageParser raw = (true, true, stream) →
        parseLoop' (S fuel) pkt tcptuple dir priv raw st =
          parseLoop' fuel pkt tcptuple dir priv next
            (handle m tcptuple dir st).2)) ∧
  (¬ 0 ≤ m_messageLength m ≤ Z.of_nat (length (s_data stream)) →
   PrepareForNewMessage stream = None).
Proof.
  intros Hm. split.
  - intros Hlen. unfold PrepareForNewMessage. rewrite Hm. simpl.
    rewrite decide_True by done. eexists. split; [done|]. simpl.
    split; [by rewrite take_drop|].
    split; [rewrite length_take; lia|].
    split; [done|]. split; [done|].
    intros fuel pkt tcptuple dir priv st raw m0 Hpos Hraw Hparse.
    simpl. rewrite decide_True by done. rewrite Hraw, Hparse. simpl.
    rewrite Hm. unfold PrepareForNewMessage. simpl.
    rewrite decide_True by done. reflexivity.
  - intros Hout. unfold PrepareForNewMessage. rewrite Hm. simpl.
    by rewrite decide_False.
Qed.

(** C10.  A packet that finds the slot of its direction empty creates the
    buffer from its whole payload without any comparison with the
    ceiling, whatever the length of the payload, and the loop runs on it:
    the decoder sees the whole payload, and when it asks for more data
    the buffer is kept as the decoder left it. *)
Theorem first_packet_not_size_checked fuel pkt tcptuple dir private st :
  getData (default emptyPrivateData private) dir = Some None →
  Parse' fuel pkt tcptuple dir private st =
    parseLoop' fuel pkt tcptuple dir (default emptyPrivateData private)
      (newStream pkt tcptuple) st ∧
  s_data (newStream pkt tcptuple) = Payload pkt ∧
  (∀ kept,
     Payload pkt ≠ [] →
     mongodbMessageParser (newStream pkt tcptuple) = (true, false, kept) →
     Parse' (S fuel) pkt tcptuple dir private st =
       Returned
         (Some (setData (default emptyPrivateData private) dir (Some kept))) st).
Proof.
  intros Hnil. split; [by apply Parse_new_stream|]. split; [done|].
  intros kept Hne Hparse. rewrite Parse_new_stream by done.
  simpl. rewrite decide_True by (destruct (Payload pkt); simpl; [done|lia]).
  by rewrite Hparse.
Qed.

End DriverClaims.

(** ** Termination of the loop *)

Section DriverTermination.

Variable IP_String : list N → string.
Variable TcpDirectionReverse : Z.
Variable FindProcessesTuple : TcpTuple → CmdlineTuple.
Variable TCP_MAX_DATA_IN_STREAM : Z.
Variable mongodbMessageParser : MongodbStream → bool * bool * MongodbStream.
Hypothesis parser_productive : productive mongodbMessageParser.

Lemma parseLoop_returns fuel pkt tcptuple dir priv stream st :
  (length (s_data stream) < fuel)%nat →
  ∃ r st',
    parseLoop IP_String TcpDirectionReverse FindProcessesTuple mongodbMessageParser
      fuel pkt tcptuple dir priv stream st = Returned r st'.
Proof.
  revert stream st. induction fuel as [|fuel IH]; intros stream st Hlt; [lia|].
  simpl. case_decide; [|by eauto].
  set (stream1 := match s_message stream with
                  | Some _ => stream
                  | None => set_message (Some (newMessage (pkt_Ts pkt))) stream
                  end).
  assert (Hd1 : s_data stream1 = s_data stream).
  { subst stream1. by destruct (s_message stream). }
  destruct (mongodbMessageParser stream1) as [[ok complete] stream2] eqn:Hp.
  destruct ok; simpl; [|by eauto].
  destruct complete; [|by eauto].
  destruct (parser_productive _ _ Hp) as [Hle Hpos].
  destruct (s_message stream2) as [m|] eqn:Hm; [|by eauto].
  specialize (Hpos m eq_refl).
  unfold PrepareForNewMessage. simpl.
  case_decide; [|by eauto].
  apply IH. simpl. rewrite length_drop. rewrite Hd1 in Hle. lia.
Qed.

Lemma Parse_returns fuel pkt tcptuple dir private st :
  (length (Payload pkt) +
     length (default [] (s_data <$>
                default None (getData (default emptyPrivateData private) dir)))
   < fuel)%nat →
  ∃ r st',
    Parse IP_String TcpDirectionReverse FindProcessesTuple TCP_MAX_DATA_IN_STREAM
      mongodbMessageParser fuel pkt tcptuple dir private st = Returned r st'.
Proof.
  intros Hfuel. unfold Parse.
  destruct (getData (default emptyPrivateData private) dir) as [[old|]|];
    simpl in *; [| |by eauto].
  - case_decide; [by eauto|].
    apply parseLoop_returns. simpl. rewrite length_app. lia.
  - apply parseLoop_returns. simpl. lia.
Qed.

End DriverTermination.

Lemma parserOfDecoder_acceptBody_productive : productive (parserOfDecoder acceptBody).
Proof.
  intros s s' Hp. unfold parserOfDecoder in Hp.
  destruct (s_message s) as [m|]; [|done].
  destruct (decodeMessage acceptBody (s_data s) m) as [[| |n] m'] eqn:Hd; try done.
  injection Hp as <-. split; [done|]. simpl. intros ? [= <-].
  unfold decodeMessage in Hd.
  destruct (readInt32 0 (s_data s)) as [len|]; [|done].
  repeat case_decide; try done.
  destruct (readInt32 4 (s_data s)), (readInt32 8 (s_data s)),
    (readInt32 12 (s_data s)) as [code|]; try done.
  destruct (resolveOperation code); [|done].
  unfold acceptBody in Hd. injection Hd as _ <-. simpl. lia.
Qed.

(** ** The decoder *)

Lemma resolveOperation_unknown code :
  OpCodes !! code = None → resolveOperation code = None.
Proof. intros H. unfold resolveOperation. by rewrite H. Qed.

(** C4.  A message whose opcode does not resolve to a supported operation
    is never reported complete, and once it is buffered whole it is
    reported malformed, in the decoder's own terms and in the two booleans
    [Parse] receives.  The reserved value 2003 does not resolve, and neither
    does any value absent from the table, such as 9999. *)
Theorem unsupported_opcode_is_malformed decodeBody data m code :
  readInt32 12 data = Some code →
  resolveOperation code = None →
  (∀ n, (decodeMessage decodeBody data m).1 ≠ Complete n) ∧
  (∀ len, readInt32 0 data = Some len → len ≤ Z.of_nat (length data) →
     (decodeMessage decodeBody data m).1 = Malformed) ∧
  (∀ stream len,
     s_data stream = data → s_message stream = Some m →
     readInt32 0 data = Some len → len ≤ Z.of_nat (length data) →
     (parserOfDecoder decodeBody stream).1 = (false, false)) ∧
  resolveOperation 2003 = None ∧
  resolveOperation 9999 = None ∧
  (∀ c, OpCodes !! c = None → resolveOperation c = None).
Proof.
  intros Hcode Hres.
  assert (Hcases : ∀ len, readInt32 0 data = Some len →
            len ≤ Z.of_nat (length data) →
            (decodeMessage decodeBody data m).1 = Malformed).
  { intros len Hlen Hle. unfold decodeMessage. rewrite Hlen.
    rewrite decide_False by lia.
    case_decide; [done|]. rewrite Hcode.
    destruct (readInt32 4 data), (readInt32 8 data); try done.
    by rewrite Hres. }
  split.
  { intros n. unfold decodeMessage.
    destruct (readInt32 0 data) as [len|] eqn:Hlen; [|done].
    case_decide; [done|].
    case_decide; [done|]. rewrite Hcode.
    destruct (readInt32 4 data), (readInt32 8 data); try done.
    by rewrite Hres. }
  split; [done|]. split.
  { intros stream len Hdata Hm Hlen Hle. unfold parserOfDecoder.
    rewrite Hm, Hdata.
    specialize (Hcases len Hlen Hle).
    destruct (decodeMessage decodeBody data m) as [[] m']; simpl in *; done. }
  split; [done|]. split; [done|]. apply resolveOperation_unknown.
Qed.

(** * Instances on the sample inputs *)

Lemma request_response_publishes_once_witness :
  reachable dotted 0 (started true) ∧
  ∃ ev,
    results (receivedMongodbResponse (reply_after 5000000 "")
               (receivedMongodbRequest dotted 0 count_users (started true))) =
      Some ([] ++ [ev]) ∧
    ev_mongodb ev !! "fullCollectionName"%string = Some (VString "db.users") ∧
    ev_mongodb ev !! "numberReturned"%string = Some (VInt 1).
Proof.
  assert (Hreach : reachable dotted 0 (started true))
    by apply (reachable_Init dotted 0 true sample_conf true).
  split; [exact Hreach|].
  destruct (request_response_publishes_once dotted 0 (started true)
              count_users (reply_after 5000000 "") Hreach eq_refl)
    as (_ & Hpub & _).
  destruct (Hpub [] eq_refl) as (ev & Hev & Hfields).
  exists ev. split; [exact Hev|].
  split; rewrite Hfields; reflexivity.
Defined.

Lemma one_open_transaction_per_connection_witness :
  reachable dotted 0 one_open ∧
  (tm_status <$> timers one_open !! 0%nat) = Some TimerArmed ∧
  (tm_status <$> timers (receivedMongodbRequest dotted 0 find_orders one_open) !! 0%nat)
    = Some TimerStopped ∧
  warnings (receivedMongodbRequest dotted 0 find_orders one_open) =
    warnings one_open ++ ["Two requests without a Response. Dropping old request"%string].
Proof.
  assert (Hreach : reachable dotted 0 one_open)
    by apply (reachable_step dotted 0 (ARequest count_users) (started true)),
             (reachable_Init dotted 0 true sample_conf true).
  split; [exact Hreach|]. split; [reflexivity|]. split; [reflexivity|].
  destruct (one_open_transaction_per_connection dotted 0 one_open Hreach) as [_ H].
  edestruct (H find_orders 0%nat) as (_ & Hw & _); [reflexivity | reflexivity |].
  exact Hw.
Defined.

Lemma timeout_removes_without_publishing_witness :
  reachable dotted 0 (started true) ∧
  transactionsMap
    (callback 0 (elapse 0 (receivedMongodbRequest dotted 0 count_users (started true))))
    !! Hashable client_server = None.
Proof.
  assert (Hreach : reachable dotted 0 (started true))
    by apply (reachable_Init dotted 0 true sample_conf true).
  split; [exact Hreach|].
  exact (proj1 (proj2 (proj2
           (timeout_removes_without_publishing dotted 0 (started true) count_users Hreach)))).
Defined.

Lemma timeout_without_entry_is_noop_witness :
  (tm_status <$> timers answered_late !! 0%nat) = Some TimerExpired ∧
  transactionsMap answered_late !! Hashable client_server = None ∧
  heap (callback 0 answered_late) = heap answered_late.
Proof.
  split; [reflexivity|]. split; [reflexivity|].
  edestruct (timeout_without_entry_is_noop answered_late 0%nat) as (_ & _ & Hh & _);
    [reflexivity | reflexivity | reflexivity | reflexivity | exact Hh].
Defined.

Lemma orphan_response_discarded_witness :
  transactionsMap (started true) !! Hashable (m_TcpTuple (reply_after 5000000 "")) = None ∧
  results (receivedMongodbResponse (reply_after 5000000 "") (started true)) =
    results (started true).
Proof.
  split; [reflexivity|].
  apply (orphan_response_discarded (started true) (reply_after 5000000 "")).
  intros a t Hk. vm_compute in Hk. discriminate Hk.
Defined.

Lemma responsetime_truncated_ms_witness :
  reachable dotted 0 (started true) ∧
  ∃ ev,
    results (receivedMongodbResponse (reply_after 5000000 "")
               (receivedMongodbRequest dotted 0 count_users (started true))) =
      Some ([] ++ [ev]) ∧
    ev_responsetime ev = 5.
Proof.
  assert (Hreach : reachable dotted 0 (started true))
    by apply (reachable_Init dotted 0 true sample_conf true).
  split; [exact Hreach|].
  destruct (responsetime_truncated_ms dotted 0 (started true) []
              count_users (reply_after 5000000 "") Hreach eq_refl eq_refl)
    as (ev & Hev & _ & Hfit).
  exists ev. split; [exact Hev|].
  apply Hfit; [vm_compute; split; [discriminate | reflexivity] | reflexivity].
Defined.

Lemma oversized_append_discards_direction_witness :
  getData six_buffered 0 = Some (Data0 six_buffered) ∧
  Parse dotted 0 no_processes 8 (parserOfDecoder acceptBody) 1
    (packet [0; 0; 2; 0] 1000) client_server 0 (Some six_buffered) (started true) =
    Returned (Some emptyPrivateData) (started true).
Proof.
  split; [reflexivity|].
  apply (oversized_append_discards_direction dotted 0 no_processes 8
           (parserOfDecoder acceptBody) 1 (packet [0; 0; 2; 0] 1000) client_server 0
           six_buffered (newStream (packet [40; 0; 0; 0; 1; 0] 0) client_server)
           (started true)); [reflexivity | vm_compute; reflexivity].
Defined.

Lemma completed_message_consumes_its_length_witness :
  ∃ next,
    PrepareForNewMessage two_messages = Some next ∧
    s_data next = bytes_of [16; 0; 0; 0] ∧
    s_message next = Some (newMessage 42).
Proof.
  destruct (completed_message_consumes_its_length dotted 0 no_processes
              (parserOfDecoder acceptBody) two_messages
              (set_header 16 1 0 "OP_QUERY" (newMessage 42)) eq_refl)
    as [Hin _].
  destruct Hin as (next & Hnext & _ & _ & Hm & _).
  - vm_compute. split; discriminate.
  - exists next. split; [exact Hnext|]. split; [|exact Hm].
    vm_compute in Hnext. injection Hnext as <-. reflexivity.
Defined.

Lemma first_packet_not_size_checked_witness :
  getData emptyPrivateData 0 = Some None ∧
  4 < Z.of_nat (length (Payload (packet [40; 0; 0; 0; 1; 0] 0))) ∧
  Parse dotted 0 no_processes 4 (parserOfDecoder acceptBody) 1
    (packet [40; 0; 0; 0; 1; 0] 0) client_server 0 None (started true) =
    Returned (Some six_buffered) (started true).
Proof.
  split; [reflexivity|]. split; [vm_compute; reflexivity|].
  destruct (first_packet_not_size_checked dotted 0 no_processes 4
              (parserOfDecoder acceptBody) 0 (packet [40; 0; 0; 0; 1; 0] 0)
              client_server 0 None (started true) eq_refl) as (_ & _ & Hkept).
  apply (Hkept (newStream (packet [40; 0; 0; 0; 1; 0] 0) client_server));
    [discriminate | reflexivity].
Defined.

Lemma unsupported_opcode_is_malformed_witness :
  readInt32 12 (header_only 211 7) = Some 2003 ∧
  (decodeMessage acceptBody (header_only 211 7) (newMessage 0)).1 = Malformed ∧
  (decodeMessage acceptBody (header_only 15 39) (newMessage 0)).1 = Malformed.
Proof.
  split; [reflexivity|]. split.
  - destruct (unsupported_opcode_is_malformed acceptBody (header_only 211 7)
                (newMessage 0) 2003 eq_refl eq_refl) as (_ & H & _).
    apply (H 16); [reflexivity | vm_compute; discriminate].
  - destruct (unsupported_opcode_is_malformed acceptBody (header_only 15 39)
                (newMessage 0) 9999 eq_refl eq_refl) as (_ & H & _).
    apply (H 16); [reflexivity | vm_compute; discriminate].
Defined.

(** A query and, five milliseconds later, its reply in the other direction,
    each a packet of its own through [Parse]: one event, a response time of
    5, an empty table, and both buffers consumed. *)
Example parse_query_then_reply :
  ∃ p1 st1 p2 st2 ev,
    after_query = Returned (Some p1) st1 ∧
    sampleParse 2 (packet [16; 0; 0; 0;  2; 0; 0; 0;  1; 0; 0; 0;  1; 0; 0; 0] 5000000)
      client_server 0 (Some p1) st1 = Returned (Some p2) st2 ∧
    results st1 = Some [] ∧
    results st2 = Some [ev] ∧
    ev_method ev = "OP_QUERY"%string ∧
    ev_responsetime ev = 5 ∧
    transactionsMap st2 = ∅ ∧
    (s_data <$> Data0 p2) = Some [] ∧ (s_data <$> Data1 p2) = Some [].
Proof.
  eexists _, _, _, _, _.
  split; [vm_compute; reflexivity|].
  split; [vm_compute; reflexivity|].
  repeat split.
Qed.

(** * Where the code departs from the description *)

(** C1, as stated, fails twice.  Without a results channel the pair of
    request and response publishes nothing; and with one, a response that
    carries an error text publishes a field map with an [error] key that
    neither the request nor the response held. *)
Lemma publication_needs_channel_and_adds_error :
  results (run dotted 0 [ARequest count_users; AResponse (reply_after 5000000 "")]
             (started false)) = None ∧
  ∃ ev,
    results (run dotted 0
               [ARequest count_users; AResponse (reply_after 5000000 "cursor not found")]
               (started true)) = Some [ev] ∧
    ev_mongodb ev !! "error"%string = Some (VString "cursor not found") ∧
    m_event count_users !! "error"%string = None ∧
    m_event (reply_after 5000000 "cursor not found") !! "error"%string = None.
Proof.
  split; [reflexivity|].
  eexists. split; [vm_compute; reflexivity|].
  repeat split.
Qed.

(** C6, as stated, fails when the delay of a timer has elapsed before the
    response is handled: [Stop] then comes too late, the callback still
    runs, and it deletes whatever the table holds under the key.  Timer 0
    belongs to transaction 0, which its response removed; the table now
    holds transaction 1 under the same key, and the callback removes it. *)
Lemma stale_timeout_removes_later_transaction :
  (tm_trans <$> timers reopened !! 0%nat) = Some 0%nat ∧
  (tm_status <$> timers reopened !! 0%nat) = Some TimerExpired ∧
  transactionsMap answered_late !! Hashable client_server = None ∧
  transactionsMap reopened !! Hashable client_server = Some 1%nat ∧
  transactionsMap (step dotted 0 (ACallback 0%nat) reopened) !! Hashable client_server = None.
Proof. repeat split. Qed.

(** C2, as stated, fails for a timer whose delay has already elapsed when
    the second request arrives.  Timer 0 was armed by the first request and
    is held by the entry; its delay elapses; the second request stops
    nothing, timer 0 stays elapsed beside the new waiting timer 1, and the
    callback of timer 0 then removes the entry of the second request. *)
Lemma superseding_request_leaves_elapsed_timer :
  (tm_status <$> timers one_open !! 0%nat) = Some TimerArmed ∧
  transactionsMap elapsed_open !! Hashable (m_TcpTuple find_orders) = Some 0%nat ∧
  (t_timer <$> heap elapsed_open !! 0%nat) = Some (Some 0%nat) ∧
  (tm_status <$> timers elapsed_open !! 0%nat) = Some TimerExpired ∧
  (tm_status <$> timers (receivedMongodbRequest dotted 0 find_orders elapsed_open) !! 0%nat)
    = Some TimerExpired ∧
  (tm_status <$> timers (receivedMongodbRequest dotted 0 find_orders elapsed_open) !! 1%nat)
    = Some TimerArmed ∧
  transactionsMap (receivedMongodbRequest dotted 0 find_orders elapsed_open)
    !! Hashable (m_TcpTuple find_orders) = Some 0%nat ∧
  transactionsMap
    (step dotted 0 (ACallback 0%nat)
       (receivedMongodbRequest dotted 0 find_orders elapsed_open))
    !! Hashable (m_TcpTuple find_orders) = None.
Proof. repeat split. Qed.

(** C9, as stated, fails once the difference reaches 2^31 milliseconds: the
    response is later than the request and the recorded time is negative. *)
Lemma responsetime_wraps_negative :
  m_Ts count_users ≤ m_Ts (reply_after (2 ^ 31 * 10 ^ 6) "") ∧
  (m_Ts (reply_after (2 ^ 31 * 10 ^ 6) "") - m_Ts count_users) ÷ 1000000 = 2147483648 ∧
  ∃ ev,
    results (run dotted 0
               [ARequest count_users; AResponse (reply_after (2 ^ 31 * 10 ^ 6) "")]
               (started true)) = Some [ev] ∧
    ev_responsetime ev = -2147483648.
Proof.
  split; [vm_compute; discriminate|]. split; [reflexivity|].
  eexists. split; [vm_compute; reflexivity|]. reflexivity.
Qed.

(** * Further properties *)

(** ** The second invariant *)

Section TimerFacts.

Variable IP_String : list N → string.
Variable TcpDirectionReverse : Z.

Local Abbreviation request := (receivedMongodbRequest IP_String TcpDirectionReverse).
Local Abbreviation response := receivedMongodbResponse.
Local Abbreviation store := (storeRequest IP_String TcpDirectionReverse).

Lemma tidy_Init test_mode conf res : tidy (Init test_mode conf res).
Proof.
  split; unfold Init; destruct test_mode; simpl; intros *;
    rewrite ?lookup_nil, ?lookup_empty; done.
Qed.

Lemma lookup_stopTimerOf_ne trans ts id :
  t_timer trans ≠ Some id → stopTimerOf trans ts !! id = ts !! id.
Proof.
  unfold stopTimerOf. intros Hne. destruct (t_timer trans) as [id0|]; [|done].
  apply list_lookup_alter_ne. congruence.
Qed.

Lemma lookup_stopTimerOf_eq trans ts id :
  t_timer trans = Some id → stopTimerOf trans ts !! id = stopped <$> ts !! id.
Proof. unfold stopTimerOf. intros ->. apply list_lookup_alter_eq. Qed.

Lemma stopped_fields tm :
  tm_duration (stopped tm) = tm_duration tm ∧ tm_trans (stopped tm) = tm_trans tm.
Proof. unfold stopped. by destruct (tm_status tm). Qed.

Lemma lookup_stopTimerOf trans ts id tm :
  stopTimerOf trans ts !! id = Some tm →
  ∃ tm0, ts !! id = Some tm0 ∧ tm_duration tm = tm_duration tm0 ∧
         tm_trans tm = tm_trans tm0.
Proof.
  destruct (decide (t_timer trans = Some id)) as [E|E].
  - rewrite (lookup_stopTimerOf_eq _ _ _ E).
    destruct (ts !! id) as [tm0|]; simpl; [|done]. intros [= <-].
    exists tm0. split; [done|]. apply stopped_fields.
  - rewrite (lookup_stopTimerOf_ne _ _ _ E). eauto.
Qed.

Lemma tidy_request msg st : wf st → tidy st → tidy (request msg st).
Proof.
  intros [Ht Hm] [Hb Hd Harm Hlive].
  destruct (transactionsMap st !! Hashable (m_TcpTuple msg)) as [a|] eqn:Hk.
  - destruct (Ht _ _ Hk) as (t & Ha & Hkey & [ev0 Ho] & [id0 Hid0]).
    assert (Hlt : (a < length (heap st))%nat) by by eapply lookup_lt_Some.
    destruct (Hlive _ _ _ _ Hk Ha Hid0) as (tm0 & Htm0 & Hown0 & Hst0).
    rewrite (request_known _ _ _ _ _ _ Hk Ha), rearm_eq, Ho. simpl.
    rewrite list_insert_insert_eq.
    assert (Hrec : t_timer (store msg t) = Some id0) by done.
    split; simpl.
    + intros b t' Hb'. destruct (decide (b = a)) as [->|Hne].
      * rewrite list_lookup_insert_eq in Hb' by done. injection Hb' as <-. simpl. eauto.
      * rewrite list_lookup_insert_ne in Hb' by done. eauto.
    + intros id tm Hid. rewrite length_insert.
      apply lookup_app_Some in Hid as [Hid|[Hge Hid]].
      * apply lookup_stopTimerOf in Hid as (tm1 & Htm1 & -> & ->). eauto.
      * destruct (id - _)%nat; simpl in Hid; [|done]. by injection Hid as <-.
    + intros id tm Hid Hs.
      apply lookup_app_Some in Hid as [Hid|[Hge Hid]].
      * destruct (decide (id = id0)) as [->|Hne].
        { rewrite (lookup_stopTimerOf_eq _ _ _ Hrec), Htm0 in Hid. injection Hid as <-.
          by destruct (stopped_not_armed tm0). }
        rewrite lookup_stopTimerOf_ne in Hid by congruence.
        destruct (Harm _ _ Hid Hs) as (t' & Ht' & Hrec').
        destruct (decide (tm_trans tm = a)) as [Ea|Hna].
        -- rewrite Ea in Ht'. congruence.
        -- exists t'. by rewrite list_lookup_insert_ne.
      * rewrite length_stopTimerOf in Hid, Hge.
        destruct (id - _)%nat eqn:E; simpl in Hid; [|done]. injection Hid as <-.
        simpl. rewrite list_lookup_insert_eq by done. eexists. split; [done|].
        simpl. f_equal. lia.
    + intros k b t' id Hkb Hb' Hid.
      destruct (decide (b = a)) as [->|Hne].
      * rewrite list_lookup_insert_eq in Hb' by done. injection Hb' as <-.
        simpl in Hid. injection Hid as <-.
        rewrite lookup_app_r by (by rewrite length_stopTimerOf).
        rewrite length_stopTimerOf, Nat.sub_diag. simpl. eauto.
      * rewrite list_lookup_insert_ne in Hb' by done.
        destruct (Hlive _ _ _ _ Hkb Hb' Hid) as (tm & Htm & Hown & Hst).
        exists tm. split; [|done].
        pose proof (lookup_lt_Some _ _ _ Htm).
        rewrite lookup_app_l by (by rewrite length_stopTimerOf).
        rewrite lookup_stopTimerOf_ne; [done|]. rewrite Hrec. intros [= <-]. congruence.
  - rewrite (request_unknown _ _ _ _ Hk), rearm_eq. simpl.
    rewrite list_insert_insert_eq.
    change (stopTimerOf _ (timers st)) with (timers st).
    split; simpl.
    + intros b t' Hb'. destruct (decide (b = length (heap st))) as [->|Hne].
      * rewrite list_lookup_insert_eq in Hb' by (rewrite length_app; simpl; lia).
        by injection Hb' as <-.
      * rewrite list_lookup_insert_ne in Hb' by done.
        apply lookup_app_Some in Hb' as [Hb'|[Hge Hb']]; [eauto|].
        destruct (b - _)%nat; simpl in Hb'; [|done]. by injection Hb' as <-.
    + intros id tm Hid. rewrite length_insert, length_app. simpl.
      apply lookup_app_Some in Hid as [Hid|[Hge Hid]].
      * destruct (Hd _ _ Hid). split; [done|lia].
      * destruct (id - _)%nat; simpl in Hid; [|done]. injection Hid as <-.
        simpl. split; [done|lia].
    + intros id tm Hid Hs.
      apply lookup_app_Some in Hid as [Hid|[Hge Hid]].
      * destruct (Harm _ _ Hid Hs) as (t' & Ht' & Hrec').
        exists t'. pose proof (lookup_lt_Some _ _ _ Ht').
        rewrite list_lookup_insert_ne by lia. by rewrite lookup_app_l.
      * destruct (id - _)%nat eqn:E; simpl in Hid; [|done]. injection Hid as <-.
        simpl. rewrite list_lookup_insert_eq by (rewrite length_app; simpl; lia).
        eexists. split; [done|]. simpl. f_equal. lia.
    + intros k b t' id Hkb Hb' Hid.
      destruct (decide (k = Hashable (m_TcpTuple msg))) as [->|Hnk].
      * rewrite lookup_insert_eq in Hkb. injection Hkb as <-.
        rewrite list_lookup_insert_eq in Hb' by (rewrite length_app; simpl; lia).
        injection Hb' as <-. simpl in Hid. injection Hid as <-.
        rewrite lookup_app_r by done. rewrite Nat.sub_diag. simpl. eauto.
      * rewrite lookup_insert_ne in Hkb by done.
        destruct (Ht _ _ Hkb) as (u & Hu & _).
        pose proof (lookup_lt_Some _ _ _ Hu).
        rewrite list_lookup_insert_ne in Hb' by lia.
        rewrite lookup_app_l in Hb' by done.
        destruct (Hlive _ _ _ _ Hkb Hb' Hid) as (tm & Htm & Hown & Hst).
        exists tm. split; [|done]. by apply lookup_app_l_Some.
Qed.

Lemma tidy_Warn s st : tidy st → tidy (Warn s st).
Proof. intros [Hb Hd Harm Hlive]. split; simpl; eauto. Qed.

Lemma tidy_response msg st : wf st → tidy st → tidy (response msg st).
Proof.
  intros [Ht Hm] Htidy. pose proof Htidy as [Hb Hd Harm Hlive].
  destruct (transactionsMap st !! Hashable (m_TcpTuple msg)) as [a|] eqn:Hk.
  - destruct (Ht _ _ Hk) as (t & Ha & Hkey & [ev0 Ho] & [id0 Hid0]).
    assert (Hlt : (a < length (heap st))%nat) by by eapply lookup_lt_Some.
    destruct (Hlive _ _ _ _ Hk Ha Hid0) as (tm0 & Htm0 & Hown0 & Hst0).
    rewrite (response_open _ _ _ _ _ Hk Ha Ho). simpl.
    set (t1 := match results st with Some _ => _ | None => _ end).
    assert (Ht1 : t_timer t1 = Some id0 ∧ t_BytesIn t1 = t_BytesIn t ∧
                  t_BytesOut t1 = t_BytesOut t).
    { subst t1. destruct (results st); unfold recordError;
        repeat case_decide; simpl; done. }
    destruct Ht1 as (Ei & Ebi & Ebo).
    split; simpl.
    + intros b t' Hb'. destruct (decide (b = a)) as [->|Hne].
      * rewrite list_lookup_insert_eq in Hb' by done. injection Hb' as <-.
        rewrite Ebi, Ebo. eauto.
      * rewrite list_lookup_insert_ne in Hb' by done. eauto.
    + intros id tm Hid. rewrite length_insert.
      apply lookup_stopTimerOf in Hid as (tm1 & Htm1 & -> & ->). eauto.
    + intros id tm Hid Hs.
      destruct (decide (id = id0)) as [->|Hne].
      { rewrite (lookup_stopTimerOf_eq _ _ _ Hid0), Htm0 in Hid. injection Hid as <-.
        by destruct (stopped_not_armed tm0). }
      rewrite lookup_stopTimerOf_ne in Hid by congruence.
      destruct (Harm _ _ Hid Hs) as (t' & Ht' & Hrec').
      destruct (decide (tm_trans tm = a)) as [Ea|Hna].
      * rewrite Ea in Ht'. congruence.
      * exists t'. by rewrite list_lookup_insert_ne.
    + intros k b t' id Hkb Hb' Hid.
      apply lookup_delete_Some in Hkb as [Hnk Hkb].
      destruct (Ht _ _ Hkb) as (u & Hu & Hkeyu & _).
      assert (Hne : b ≠ a).
      { intros ->. assert (u = t) by congruence. subst u. congruence. }
      rewrite list_lookup_insert_ne in Hb' by done.
      destruct (Hlive _ _ _ _ Hkb Hb' Hid) as (tm & Htm & Hown & Hst).
      exists tm. split; [|done].
      rewrite lookup_stopTimerOf_ne; [done|]. rewrite Hid0. intros [= <-]. congruence.
  - unfold receivedMongodbResponse. rewrite Hk. by apply tidy_Warn.
Qed.

Lemma expired_fields tm :
  tm_duration (expired tm) = tm_duration tm ∧ tm_trans (expired tm) = tm_trans tm ∧
  tm_status (expired tm) ≠ TimerArmed ∧
  (tm_status tm = TimerArmed ∨ tm_status tm = TimerExpired →
   tm_status (expired tm) = TimerExpired).
Proof.
  unfold expired. destruct (tm_status tm) eqn:E; simpl; rewrite ?E;
    intuition congruence.
Qed.

Lemma tidy_elapse id st : tidy st → tidy (elapse id st).
Proof.
  intros [Hb Hd Harm Hlive]. unfold elapse. split; simpl; [done|..].
  - intros j tm Hj. destruct (decide (id = j)) as [->|Hne].
    + rewrite list_lookup_alter_eq in Hj.
      destruct (timers st !! j) as [tm0|] eqn:E; simpl in Hj; [|done].
      injection Hj as <-. destruct (expired_fields tm0) as (-> & -> & _). eauto.
    + rewrite list_lookup_alter_ne in Hj by done. eauto.
  - intros j tm Hj Hs. destruct (decide (id = j)) as [->|Hne].
    + rewrite list_lookup_alter_eq in Hj.
      destruct (timers st !! j) as [tm0|] eqn:E; simpl in Hj; [|done].
      injection Hj as <-. by destruct (expired_fields tm0) as (_ & _ & Hna & _).
    + rewrite list_lookup_alter_ne in Hj by done. eauto.
  - intros k a t j Hk Ha Hj.
    destruct (Hlive _ _ _ _ Hk Ha Hj) as (tm & Htm & Hown & Hst).
    destruct (decide (id = j)) as [->|Hne].
    + exists (expired tm). rewrite list_lookup_alter_eq, Htm.
      destruct (expired_fields tm) as (_ & -> & _ & Hex). auto.
    + exists tm. by rewrite list_lookup_alter_ne.
Qed.

Lemma tidy_callback id st : wf st → tidy st → tidy (callback id st).
Proof.
  intros [Ht Hm] Htidy. pose proof Htidy as [Hb Hd Harm Hlive]. unfold callback.
  destruct (timers st !! id) as [tm|] eqn:Hid; [|done].
  destruct (tm_status tm) eqn:Hs; try done.
  assert (Hlt : (id < length (timers st))%nat) by by eapply lookup_lt_Some.
  unfold expireTransaction. simpl.
  assert (Hrest :
    (∀ j tm', <[id := set_status TimerDone tm]> (timers st) !! j = Some tm' →
       tm_duration tm' = TransactionTimeout ∧ (tm_trans tm' < length (heap st))%nat) ∧
    (∀ j tm', <[id := set_status TimerDone tm]> (timers st) !! j = Some tm' →
       tm_status tm' = TimerArmed →
       ∃ t, heap st !! tm_trans tm' = Some t ∧ t_timer t = Some j)).
  { split; intros j tm' Hj.
    - destruct (decide (id = j)) as [->|Hne].
      + rewrite list_lookup_insert_eq in Hj by done. injection Hj as <-. simpl. eauto.
      + rewrite list_lookup_insert_ne in Hj by done. eauto.
    - destruct (decide (id = j)) as [->|Hne].
      + rewrite list_lookup_insert_eq in Hj by done. by injection Hj as <-.
      + rewrite list_lookup_insert_ne in Hj by done. eauto. }
  destruct Hrest as [Hd' Harm'].
  destruct (heap st !! tm_trans tm) as [trans|] eqn:Htr.
  - split; simpl; [done..|].
    intros k a t j Hk Ha Hj.
    apply lookup_delete_Some in Hk as [Hnk Hk].
    destruct (Hlive _ _ _ _ Hk Ha Hj) as (tm' & Htm' & Hown & Hst).
    exists tm'. split; [|done].
    rewrite list_lookup_insert_ne; [done|]. intros ->.
    assert (tm' = tm) by congruence. subst tm'.
    destruct (Ht _ _ Hk) as (u & Hu & Hkeyu & _).
    rewrite Hown in Htr. congruence.
  - split; simpl; [done..|].
    intros k a t j Hk Ha Hj.
    destruct (Hlive _ _ _ _ Hk Ha Hj) as (tm' & Htm' & Hown & Hst).
    exists tm'. split; [|done].
    rewrite list_lookup_insert_ne; [done|]. intros ->.
    assert (tm' = tm) by congruence. subst tm'. congruence.
Qed.

Lemma tidy_step act st :
  wf st → tidy st → tidy (step IP_String TcpDirectionReverse act st).
Proof.
  destruct act; simpl;
    auto using tidy_request, tidy_response, tidy_elapse, tidy_callback.
Qed.

Lemma reachable_tidy st : reachable IP_String TcpDirectionReverse st → tidy st.
Proof.
  induction 1; [apply tidy_Init|].
  apply tidy_step; [by eapply reachable_wf | done].
Qed.

End TimerFacts.

(** ** The correlator *)

Section CorrelatorExtras.

Variable IP_String : list N → string.
Variable TcpDirectionReverse : Z.

Local Abbreviation request := (receivedMongodbRequest IP_String TcpDirectionReverse).
Local Abbreviation response := receivedMongodbResponse.
Local Abbreviation store := (storeRequest IP_String TcpDirectionReverse).
Local Abbreviation Reachable := (reachable IP_String TcpDirectionReverse).
Local Abbreviation step' := (step IP_String TcpDirectionReverse).
Local Abbreviation run' := (run IP_String TcpDirectionReverse).

Lemma eventOf_base req resp base id :
  t_BytesIn base = 0 → t_BytesOut base = 0 →
  eventOf (recordError (storeResponse resp (set_timer id (store req base)))) =
    firstEvent IP_String TcpDirectionReverse req resp.
Proof.
  intros Hi Ho. unfold firstEvent, recordError. simpl.
  case_decide; unfold eventOf; simpl; by rewrite Hi, Ho.
Qed.

Lemma request_response_event st sent req resp :
  Reachable st →
  results st = Some sent →
  Hashable (m_TcpTuple resp) = Hashable (m_TcpTuple req) →
  results (response resp (request req st)) =
    Some (sent ++ [firstEvent IP_String TcpDirectionReverse req resp]).
Proof.
  intros Hreach Hres Hsame.
  pose proof (reachable_wf _ _ _ Hreach) as Hwf.
  pose proof (reachable_tidy _ _ _ Hreach) as [Hb _ _ _].
  destruct (request_entry IP_String TcpDirectionReverse req st Hwf)
    as (a & base & Hkey & Hnew & Hold & Hmap & Hheap & Hr & _).
  assert (Hk : transactionsMap (request req st) !! Hashable (m_TcpTuple resp) = Some a)
    by by rewrite Hmap, Hsame, lookup_insert_eq.
  rewrite (response_open _ _ _ _ ∅ Hk Hheap) by done. simpl.
  rewrite Hr, Hres. simpl. do 2 f_equal. f_equal.
  assert (t_BytesIn base = 0 ∧ t_BytesOut base = 0) as [Hi Ho].
  { destruct (transactionsMap st !! Hashable (m_TcpTuple req)) as [b|] eqn:E.
    - destruct (Hold b eq_refl) as [_ Hbase]. eauto.
    - by destruct (Hnew eq_refl) as [_ ->]. }
  by apply eventOf_base.
Qed.

(** X1.  The event published for a request and its response does not depend
    on what the connection or the module went through before: it is the
    event of a first request on a new module, whether the request opened
    the entry or replaced the data of an unanswered earlier request. *)
Theorem published_event_ignores_history st sent req resp :
  Reachable st →
  results st = Some sent →
  Hashable (m_TcpTuple resp) = Hashable (m_TcpTuple req) →
  results (response resp (request req st)) =
    Some (sent ++ [firstEvent IP_String TcpDirectionReverse req resp]) ∧
  (∀ earlier,
     results (response resp (request req (request earlier st))) =
       Some (sent ++ [firstEvent IP_String TcpDirectionReverse req resp])) ∧
  results (response resp (request req (Init true sample_conf (Some [])))) =
    Some [firstEvent IP_String TcpDirectionReverse req resp].
Proof.
  intros Hreach Hres Hsame.
  split; [by apply request_response_event|]. split.
  - intros earlier. apply request_response_event; [|  |done].
    + apply (reachable_step _ _ (ARequest earlier)), Hreach.
    + destruct (request_entry IP_String TcpDirectionReverse earlier st (reachable_wf _ _ _ Hreach))
        as (a & base & _ & _ & _ & _ & _ & -> & _). done.
  - apply (request_response_event _ []); [|done..].
    apply (reachable_Init _ _ true sample_conf true).
Qed.

(** X2.  The event published for a request and its response takes its
    method and its timestamp from the request, reports both byte counts as
    zero, has status OK exactly when the response carries no error text,
    and summarises the query as the method, a space and the collection
    name: the string under [fullCollectionName] in the merged fields (the
    response's entry first), and the empty string when that entry is absent
    or not a string. *)
Theorem published_event_content st sent req resp :
  Reachable st →
  results st = Some sent →
  Hashable (m_TcpTuple resp) = Hashable (m_TcpTuple req) →
  ∃ ev,
    results (response resp (request req st)) = Some (sent ++ [ev]) ∧
    ev_type ev = "mongodb"%string ∧
    ev_method ev = m_method req ∧
    ev_timestamp ev = m_Ts req ∧
    ev_bytes_in ev = 0 ∧ ev_bytes_out ev = 0 ∧
    (ev_status ev = OK_STATUS ↔ m_error resp = ""%string) ∧
    (ev_status ev = ERROR_STATUS ↔ m_error resp ≠ ""%string) ∧
    ev_query ev =
      (m_method req +:+ " " +:+
       assert_string
         (match m_event resp !! "fullCollectionName"%string with
          | Some v => Some v
          | None => m_event req !! "fullCollectionName"%string
          end))%string.
Proof.
  intros Hreach Hres Hsame.
  rewrite (request_response_event _ _ _ _ Hreach Hres Hsame).
  eexists. split; [done|].
  unfold firstEvent, recordError. simpl.
  destruct (decide (m_error resp = ""%string)) as [He|He]; simpl;
    rewrite ?decide_True, ?decide_False by done;
    rewrite ?lookup_insert_ne by done; rewrite mergeEvent_lookup;
    repeat split; try done; intros; congruence.
Qed.

(** X3.  The endpoints of the published event are those of the request's
    connection: source and destination as the connection has them when the
    request travelled in the original direction, exchanged when it
    travelled in the reverse direction.  The direction of the response
    plays no part. *)
Theorem published_endpoints_follow_request_direction st sent req resp :
  Reachable st →
  results st = Some sent →
  Hashable (m_TcpTuple resp) = Hashable (m_TcpTuple req) →
  ∃ ev,
    results (response resp (request req st)) = Some (sent ++ [ev]) ∧
    (m_Direction req = TcpDirectionReverse →
       ev_src ev = destinationOf IP_String req ∧ ev_dst ev = sourceOf IP_String req) ∧
    (m_Direction req ≠ TcpDirectionReverse →
       ev_src ev = sourceOf IP_String req ∧ ev_dst ev = destinationOf IP_String req).
Proof.
  intros Hreach Hres Hsame.
  rewrite (request_response_event _ _ _ _ Hreach Hres Hsame).
  eexists. split; [done|].
  unfold firstEvent, recordError.
  case_decide; simpl; (split; intros Hdir;
    [rewrite bool_decide_eq_true_2 by done | rewrite bool_decide_eq_false_2 by done]);
    done.
Qed.

(** *** What each action does to the published events *)

Lemma results_request msg st : results (request msg st) = results st.
Proof.
  unfold receivedMongodbRequest.
  destruct (transactionsMap st !! _) as [a|].
  - destruct (heap st !! a) as [t|]; [|done].
    rewrite rearm_eq. by destruct (t_Mongodb t).
  - by rewrite rearm_eq.
Qed.

Lemma results_response msg st :
  ∃ more, results (response msg st) = (λ sent, sent ++ more) <$> results st ∧
          (length more ≤ 1)%nat.
Proof.
  destruct (transactionsMap st !! Hashable (m_TcpTuple msg)) as [a|] eqn:Hk.
  - destruct (heap st !! a) as [t|] eqn:Ha.
    + destruct (t_Mongodb t) as [ev0|] eqn:Ho.
      * rewrite (response_open _ _ _ _ _ Hk Ha Ho). simpl.
        eexists. split; [done|]. simpl. lia.
      * exists []. unfold receivedMongodbResponse. rewrite Hk, Ha, Ho. simpl.
        split; [|lia]. destruct (results st); simpl; by rewrite ?app_nil_r.
    + exists []. unfold receivedMongodbResponse. rewrite Hk, Ha.
      split; [|simpl; lia]. destruct (results st); simpl; by rewrite ?app_nil_r.
  - exists []. unfold receivedMongodbResponse. rewrite Hk. simpl.
    split; [|lia]. destruct (results st); simpl; by rewrite ?app_nil_r.
Qed.

Lemma results_elapse id st : results (elapse id st) = results st.
Proof. done. Qed.

Lemma results_callback id st : results (callback id st) = results st.
Proof.
  unfold callback. destruct (timers st !! id) as [tm|]; [|done].
  destruct (tm_status tm); try done.
  unfold expireTransaction. simpl. by destruct (heap st !! tm_trans tm).
Qed.

(** X4.  Published events are never withdrawn or altered, and only a
    response publishes: after any run the events sent before it are still
    there, in order, followed by at most as many new events as the run
    handled responses.  A request or a timer action adds none, and a module
    without a results channel never publishes. *)
Theorem events_bounded_by_responses acts st :
  (∀ sent, results st = Some sent →
     ∃ more, results (run' acts st) = Some (sent ++ more) ∧
             (length more ≤ responses acts)%nat) ∧
  (results st = None → results (run' acts st) = None) ∧
  (responses acts = 0%nat → results (run' acts st) = results st).
Proof.
  revert st. induction acts as [|act acts IH]; intros st.
  { split; [|done]. intros sent Hs. exists []. rewrite app_nil_r. by split. }
  change (run' (act :: acts) st) with (run' acts (step' act st)).
  destruct (IH (step' act st)) as (IH1 & IH2 & IH3).
  assert (Hstep : ∃ more, results (step' act st) = (λ sent, sent ++ more) <$> results st ∧
            (length more ≤ responses [act])%nat ∧
            (responses [act] = 0%nat → more = [])).
  { destruct act as [msg|msg|id|id]; simpl.
    - exists []. rewrite results_request. split; [|done].
      destruct (results st); simpl; by rewrite ?app_nil_r.
    - destruct (results_response msg st) as (more & -> & Hle). exists more. done.
    - exists []. split; [|done]. destruct (results st); simpl; by rewrite ?app_nil_r.
    - exists []. rewrite results_callback. split; [|done].
      destruct (results st); simpl; by rewrite ?app_nil_r. }
  destruct Hstep as (m1 & Hm1 & Hle1 & Hz1).
  assert (Hcount : responses (act :: acts) = (responses [act] + responses acts)%nat).
  { by destruct act. }
  split; [|split].
  - intros sent Hs. rewrite Hs in Hm1. simpl in Hm1.
    destruct (IH1 _ Hm1) as (m2 & -> & Hle2).
    exists (m1 ++ m2). rewrite app_assoc. split; [done|].
    rewrite length_app, Hcount. lia.
  - intros Hn. apply IH2. by rewrite Hm1, Hn.
  - intros Hz. rewrite Hcount in Hz.
    rewrite IH3 by lia. rewrite Hm1, Hz1 by lia.
    destruct (results st); simpl; by rewrite ?app_nil_r.
Qed.

(** *** Other connections *)

Lemma request_frame msg st k a t :
  wf st → tidy st →
  k ≠ Hashable (m_TcpTuple msg) →
  transactionsMap st !! k = Some a → heap st !! a = Some t →
  transactionsMap (request msg st) !! k = Some a ∧
  heap (request msg st) !! a = Some t ∧
  ∀ id, t_timer t = Some id → timers (request msg st) !! id = timers st !! id.
Proof.
  intros [Ht Hm] [_ _ _ Hlive] Hne Hk Ha.
  destruct (Ht _ _ Hk) as (u & Hu & Hkeyu & _).
  assert (u = t) by congruence. subst u.
  assert (Hlt : (a < length (heap st))%nat) by by eapply lookup_lt_Some.
  destruct (transactionsMap st !! Hashable (m_TcpTuple msg)) as [b|] eqn:Hkb.
  - destruct (Ht _ _ Hkb) as (tb & Hb & Hkeyb & [ev0 Ho] & [idb Hidb]).
    assert (Hab : b ≠ a) by (intros ->; congruence).
    rewrite (request_known _ _ _ _ _ _ Hkb Hb), rearm_eq, Ho. simpl.
    split; [done|]. split; [by rewrite !list_lookup_insert_ne|].
    intros id Hid.
    destruct (Hlive _ _ _ _ Hk Ha Hid) as (tm & Htm & Hown & _).
    destruct (Hlive _ _ _ _ Hkb Hb Hidb) as (tmb & Htmb & Hownb & _).
    pose proof (lookup_lt_Some _ _ _ Htm).
    rewrite lookup_app_l by (by rewrite length_stopTimerOf).
    apply lookup_stopTimerOf_ne. simpl. rewrite Hidb. intros [= ->]. congruence.
  - rewrite (request_unknown _ _ _ _ Hkb), rearm_eq. simpl.
    split; [by rewrite lookup_insert_ne|].
    split; [rewrite !list_lookup_insert_ne by lia; by rewrite lookup_app_l|].
    intros id Hid. pose proof (Hm _ _ _ Ha Hid).
    by rewrite lookup_app_l.
Qed.

Lemma response_frame msg st k a t :
  wf st → tidy st →
  k ≠ Hashable (m_TcpTuple msg) →
  transactionsMap st !! k = Some a → heap st !! a = Some t →
  transactionsMap (response msg st) !! k = Some a ∧
  heap (response msg st) !! a = Some t ∧
  ∀ id, t_timer t = Some id → timers (response msg st) !! id = timers st !! id.
Proof.
  intros [Ht Hm] [_ _ _ Hlive] Hne Hk Ha.
  destruct (Ht _ _ Hk) as (u & Hu & Hkeyu & _).
  assert (u = t) by congruence. subst u.
  destruct (transactionsMap st !! Hashable (m_TcpTuple msg)) as [b|] eqn:Hkb.
  - destruct (Ht _ _ Hkb) as (tb & Hb & Hkeyb & [ev0 Ho] & [idb Hidb]).
    assert (Hab : b ≠ a) by (intros ->; congruence).
    rewrite (response_open _ _ _ _ _ Hkb Hb Ho). simpl.
    split; [rewrite lookup_delete_ne; [done|congruence]|].
    split; [by rewrite list_lookup_insert_ne|].
    intros id Hid.
    destruct (Hlive _ _ _ _ Hk Ha Hid) as (tm & Htm & Hown & _).
    destruct (Hlive _ _ _ _ Hkb Hb Hidb) as (tmb & Htmb & Hownb & _).
    apply lookup_stopTimerOf_ne. rewrite Hidb. intros [= ->]. congruence.
  - unfold receivedMongodbResponse. rewrite Hkb. done.
Qed.

(** X5.  A request or a response changes nothing for the other
    connections: the entry of every other connection key, the transaction
    stored for it and the timer that transaction holds are the same after
    the message as before, and a key without an entry still has none. *)
Theorem other_connections_untouched st msg k :
  Reachable st →
  k ≠ Hashable (m_TcpTuple msg) →
  transactionsMap (request msg st) !! k = transactionsMap st !! k ∧
  transactionsMap (response msg st) !! k = transactionsMap st !! k ∧
  ∀ a t, transactionsMap st !! k = Some a → heap st !! a = Some t →
    heap (request msg st) !! a = Some t ∧
    heap (response msg st) !! a = Some t ∧
    ∀ id, t_timer t = Some id →
      timers (request msg st) !! id = timers st !! id ∧
      timers (response msg st) !! id = timers st !! id.
Proof.
  intros Hreach Hne.
  pose proof (reachable_wf _ _ _ Hreach) as Hwf.
  pose proof (reachable_tidy _ _ _ Hreach) as Htidy.
  assert (Hreq : transactionsMap (request msg st) !! k = transactionsMap st !! k).
  { destruct (request_entry IP_String TcpDirectionReverse msg st Hwf)
      as (a & base & _ & _ & _ & -> & _). by rewrite lookup_insert_ne. }
  assert (Hresp : transactionsMap (response msg st) !! k = transactionsMap st !! k).
  { destruct (transactionsMap st !! k) as [a|] eqn:Hk.
    - destruct Hwf as [Ht Hm]. destruct (Ht _ _ Hk) as (t & Ha & _).
      by destruct (response_frame msg st k a t ltac:(by split) Htidy Hne Hk Ha) as [-> _].
    - destruct (transactionsMap st !! Hashable (m_TcpTuple msg)) as [b|] eqn:Hkb.
      + destruct Hwf as [Ht Hm].
        destruct (Ht _ _ Hkb) as (tb & Hb & Hkeyb & [ev0 Ho] & _).
        rewrite (response_open _ _ _ _ _ Hkb Hb Ho). simpl.
        rewrite lookup_delete_ne; [done|congruence].
      + unfold receivedMongodbResponse. by rewrite Hkb. }
  split; [done|]. split; [done|].
  intros a t Hk Ha.
  destruct (request_frame msg st k a t Hwf Htidy Hne Hk Ha) as (_ & H1 & H2).
  destruct (response_frame msg st k a t Hwf Htidy Hne Hk Ha) as (_ & H3 & H4).
  split; [done|]. split; [done|]. intros id Hid. split; eauto.
Qed.

(** *** Timers *)

(** X6.  Every timer the module ever made has the duration
    [TransactionTimeout], and a transaction never has two waiting timers:
    two timers that are both waiting and bound to the same transaction are
    one timer. *)
Theorem one_waiting_timer_per_transaction st :
  Reachable st →
  (∀ id tm, timers st !! id = Some tm → tm_duration tm = TransactionTimeout) ∧
  (∀ id1 id2 tm1 tm2,
     timers st !! id1 = Some tm1 → timers st !! id2 = Some tm2 →
     tm_status tm1 = TimerArmed → tm_status tm2 = TimerArmed →
     tm_trans tm1 = tm_trans tm2 → id1 = id2).
Proof.
  intros Hreach. destruct (reachable_tidy _ _ _ Hreach) as [_ Hd Harm _]. split.
  - intros id tm Hid. by destruct (Hd _ _ Hid).
  - intros id1 id2 tm1 tm2 H1 H2 Hs1 Hs2 Hsame.
    destruct (Harm _ _ H1 Hs1) as (t1 & Ht1 & Hr1).
    destruct (Harm _ _ H2 Hs2) as (t2 & Ht2 & Hr2).
    rewrite Hsame in Ht1. congruence.
Qed.

Lemma callback_elapse_removes st id tm t :
  timers st !! id = Some tm → live tm → heap st !! tm_trans tm = Some t →
  transactionsMap (callback id (elapse id st)) !! Hashable (t_tuple t) = None ∧
  results (callback id (elapse id st)) = results st.
Proof.
  intros Htm Hst Ht. split; [|by rewrite results_callback].
  unfold callback, elapse at 1. simpl.
  rewrite list_lookup_alter_eq, Htm. simpl.
  destruct (expired_fields tm) as (_ & Etr & _ & Hex). rewrite (Hex Hst).
  unfold expireTransaction. simpl. rewrite Etr, Ht. simpl.
  apply lookup_delete_eq.
Qed.

(** X7.  Every entry of the table holds a timer that is bound to its
    transaction and is still waiting or has just elapsed, never one that
    was stopped or has run.  Once the delay of that timer has elapsed and
    its callback has run, the entry is gone and nothing was published: no
    open transaction can outlive its timer. *)
Theorem open_transaction_has_live_timer st k a :
  Reachable st →
  transactionsMap st !! k = Some a →
  ∃ t id tm,
    heap st !! a = Some t ∧ t_timer t = Some id ∧
    timers st !! id = Some tm ∧ tm_trans tm = a ∧ live tm ∧
    transactionsMap (callback id (elapse id st)) !! k = None ∧
    results (callback id (elapse id st)) = results st.
Proof.
  intros Hreach Hk.
  destruct (reachable_wf _ _ _ Hreach) as [Ht Hm].
  destruct (reachable_tidy _ _ _ Hreach) as [_ _ _ Hlive].
  destruct (Ht _ _ Hk) as (t & Ha & Hkey & _ & [id Hid]).
  destruct (Hlive _ _ _ _ Hk Ha Hid) as (tm & Htm & Hown & Hst).
  exists t, id, tm. do 5 (split; [done|]).
  rewrite <- Hown in Ha. rewrite <- Hkey.
  by apply callback_elapse_removes with tm.
Qed.

(** X8.  A response that arrives after the timer of its request has fired
    finds nothing: it is logged as a response to an unknown transaction,
    publishes no event, and leaves no entry for the connection. *)
Theorem response_after_timeout_is_orphan st req resp :
  Reachable st →
  Hashable (m_TcpTuple resp) = Hashable (m_TcpTuple req) →
  let id := length (timers st) in
  let timed_out := callback id (elapse id (request req st)) in
  response resp timed_out = Warn "Response from unknown transaction. Ignoring." timed_out ∧
  results (response resp timed_out) = results st ∧
  transactionsMap (response resp timed_out) !! Hashable (m_TcpTuple req) = None.
Proof.
  intros Hreach Hsame id timed_out.
  destruct (request_entry IP_String TcpDirectionReverse req st
              (reachable_wf _ _ _ Hreach))
    as (a & base & Hkey & _ & _ & Hmap & Hheap & Hres & Htm).
  assert (Harmed : timers (request req st) !! id = Some (armedFor a)).
  { rewrite Htm. subst id.
    rewrite lookup_app_r by (by rewrite length_stopTimerOf).
    by rewrite length_stopTimerOf, Nat.sub_diag. }
  destruct (callback_elapse_removes _ _ _ _ Harmed ltac:(by left) Hheap)
    as [Hgone Hsame_results].
  simpl in Hgone. rewrite Hkey in Hgone.
  fold timed_out in Hgone, Hsame_results.
  assert (Hwarn : response resp timed_out =
                  Warn "Response from unknown transaction. Ignoring." timed_out).
  { unfold receivedMongodbResponse. by rewrite Hsame, Hgone. }
  rewrite Hwarn. simpl. split; [done|]. split; [|done].
  by rewrite Hsame_results, Hres.
Qed.

(** *** The log of warnings *)

(** X9.  A warning is logged in exactly two cases: a request that finds an
    entry for its connection, and a response that finds none.  A first
    request, a response to an open transaction and the timer actions log
    nothing. *)
Theorem warnings_logged st act :
  Reachable st →
  warnings (step' act st) = warnings st ++ warned act st.
Proof.
  intros Hreach. destruct (reachable_wf _ _ _ Hreach) as [Ht Hm].
  destruct act as [msg|msg|id|id]; simpl.
  - destruct (transactionsMap st !! Hashable (m_TcpTuple msg)) as [a|] eqn:Hk.
    + destruct (Ht _ _ Hk) as (t & Ha & _ & [ev0 Ho] & _).
      by rewrite (request_known _ _ _ _ _ _ Hk Ha), rearm_eq, Ho.
    + rewrite (request_unknown _ _ _ _ Hk), rearm_eq. simpl. by rewrite app_nil_r.
  - destruct (transactionsMap st !! Hashable (m_TcpTuple msg)) as [a|] eqn:Hk.
    + destruct (Ht _ _ Hk) as (t & Ha & _ & [ev0 Ho] & _).
      rewrite (response_open _ _ _ _ _ Hk Ha Ho). simpl. by rewrite app_nil_r.
    + unfold receivedMongodbResponse. by rewrite Hk.
  - by rewrite app_nil_r.
  - rewrite app_nil_r. unfold callback. destruct (timers st !! id) as [tm|]; [|done].
    destruct (tm_status tm); try done.
    unfold expireTransaction. simpl. by destruct (heap st !! tm_trans tm).
Qed.

(** *** The life of a transaction *)

Lemma step_keeps_allocated act st a t :
  heap st !! a = Some t →
  ∃ t', heap (step' act st) !! a = Some t' ∧ t_tuple t' = t_tuple t.
Proof.
  intros Ha. assert (Hlt : (a < length (heap st))%nat) by by eapply lookup_lt_Some.
  destruct act as [msg|msg|id|id]; simpl.
  - unfold receivedMongodbRequest.
    destruct (transactionsMap st !! _) as [b|] eqn:Hk.
    + destruct (heap st !! b) as [tb|] eqn:Hb; [|by eauto].
      rewrite rearm_eq.
      destruct (t_Mongodb tb); simpl; rewrite list_insert_insert_eq;
      (destruct (decide (b = a)) as [->|Hne];
       [rewrite list_lookup_insert_eq by done; eexists; split; [done|];
        simpl; congruence
       |rewrite list_lookup_insert_ne by done; eauto]).
    + rewrite rearm_eq. simpl. rewrite list_insert_insert_eq.
      rewrite list_lookup_insert_ne by lia. rewrite lookup_app_l by done. eauto.
  - destruct (transactionsMap st !! Hashable (m_TcpTuple msg)) as [b|] eqn:Hk.
    + destruct (heap st !! b) as [tb|] eqn:Hb.
      * destruct (t_Mongodb tb) as [ev0|] eqn:Ho.
        -- rewrite (response_open _ _ _ _ _ Hk Hb Ho). simpl.
           destruct (decide (b = a)) as [->|Hne].
           ++ rewrite list_lookup_insert_eq by done. eexists. split; [done|].
              assert (tb = t) by congruence. subst tb.
              destruct (results st); by rewrite ?recordError_tuple.
           ++ rewrite list_lookup_insert_ne by done. eauto.
        -- unfold receivedMongodbResponse. rewrite Hk, Hb, Ho. eauto.
      * unfold receivedMongodbResponse. rewrite Hk, Hb. eauto.
    + unfold receivedMongodbResponse. rewrite Hk. eauto.
  - eauto.
  - unfold callback. destruct (timers st !! id) as [tm|]; [|by eauto].
    destruct (tm_status tm); eauto.
    unfold expireTransaction. simpl. destruct (heap st !! tm_trans tm); eauto.
Qed.

(** X10.  The connection of a transaction is fixed when the transaction is
    created: whatever the module does afterwards, the transaction stays
    allocated with the same connection identity, so the key a timer
    callback deletes is the key under which its transaction was stored. *)
Theorem transaction_key_never_changes acts st a t :
  heap st !! a = Some t →
  ∃ t', heap (run IP_String TcpDirectionReverse acts st) !! a = Some t' ∧
        t_tuple t' = t_tuple t.
Proof.
  revert st t. induction acts as [|act acts IH]; intros st t Ha; [by eauto|].
  change (run' (act :: acts) st) with (run' acts (step' act st)).
  destruct (step_keeps_allocated act st a t Ha) as (t1 & H1 & E1).
  destruct (IH _ _ H1) as (t2 & H2 & E2).
  exists t2. split; [done|congruence].
Qed.

Lemma step_keeps_closed act st a : closed st a → closed (step' act st) a.
Proof.
  intros [Hlt Hno].
  destruct act as [msg|msg|id|id]; simpl.
  - unfold receivedMongodbRequest.
    destruct (transactionsMap st !! _) as [b|] eqn:Hk.
    + destruct (heap st !! b) as [tb|] eqn:Hb; [|done].
      rewrite rearm_eq. split.
      * destruct (t_Mongodb tb); simpl; by rewrite !length_insert.
      * by destruct (t_Mongodb tb).
    + rewrite rearm_eq. split; simpl.
      * rewrite !length_insert, length_app. simpl. lia.
      * intros k Hka. destruct (decide (k = Hashable (m_TcpTuple msg))) as [->|Hne].
        -- rewrite lookup_insert_eq in Hka. injection Hka as <-. lia.
        -- rewrite lookup_insert_ne in Hka by done. by apply (Hno k).
  - destruct (transactionsMap st !! Hashable (m_TcpTuple msg)) as [b|] eqn:Hk.
    + destruct (heap st !! b) as [tb|] eqn:Hb.
      * destruct (t_Mongodb tb) as [ev0|] eqn:Ho.
        -- rewrite (response_open _ _ _ _ _ Hk Hb Ho). split; simpl.
           ++ by rewrite length_insert.
           ++ intros k Hka. apply lookup_delete_Some in Hka as [_ Hka]. by apply (Hno k).
        -- unfold receivedMongodbResponse. by rewrite Hk, Hb, Ho.
      * unfold receivedMongodbResponse. by rewrite Hk, Hb.
    + unfold receivedMongodbResponse. by rewrite Hk.
  - done.
  - unfold callback. destruct (timers st !! id) as [tm|]; [|done].
    destruct (tm_status tm); try done.
    unfold expireTransaction. simpl.
    destruct (heap st !! tm_trans tm); [|done].
    split; simpl; [done|].
    intros k Hka. apply lookup_delete_Some in Hka as [_ Hka]. by apply (Hno k).
Qed.

(** X11.  A transaction that has left the table, answered or timed out,
    never comes back: no later request, response or timer action stores it
    under any key again, so a later response can never be paired with
    it. *)
Theorem closed_transaction_stays_closed acts st a :
  closed st a → closed (run' acts st) a.
Proof.
  revert st. induction acts as [|act acts IH]; intros st Hc; [done|].
  change (run' (act :: acts) st) with (run' acts (step' act st)).
  by apply IH, step_keeps_closed.
Qed.

(** X17.  The two switches of the module are set once, by [Init]: false in
    test mode whatever the configuration says, and otherwise the
    configured value of each, false when the configuration does not define
    it.  No request, response or timer action changes them afterwards. *)
Theorem switches_fixed_at_Init acts test_mode conf res :
  Send_request (run' acts (Init test_mode conf res)) =
    (if test_mode then false else default false (conf_Send_request conf)) ∧
  Send_response (run' acts (Init test_mode conf res)) =
    (if test_mode then false else default false (conf_Send_response conf)).
Proof.
  assert (Hstep : ∀ act st,
            Send_request (step' act st) = Send_request st ∧
            Send_response (step' act st) = Send_response st).
  { intros act st. destruct act as [msg|msg|id|id]; simpl.
    - unfold receivedMongodbRequest.
      destruct (transactionsMap st !! _) as [a|].
      + destruct (heap st !! a) as [t|]; [|done].
        rewrite rearm_eq. by destruct (t_Mongodb t).
      + by rewrite rearm_eq.
    - destruct (transactionsMap st !! Hashable (m_TcpTuple msg)) as [a|] eqn:Hk.
      + destruct (heap st !! a) as [t|] eqn:Ha.
        * destruct (t_Mongodb t) as [ev0|] eqn:Ho.
          -- by rewrite (response_open _ _ _ _ _ Hk Ha Ho).
          -- unfold receivedMongodbResponse. by rewrite Hk, Ha, Ho.
        * unfold receivedMongodbResponse. by rewrite Hk, Ha.
      + unfold receivedMongodbResponse. by rewrite Hk.
    - done.
    - unfold callback. destruct (timers st !! id) as [tm|]; [|done].
      destruct (tm_status tm); try done.
      unfold expireTransaction. simpl. by destruct (heap st !! tm_trans tm). }
  assert (Hrun : ∀ acts st,
            Send_request (run' acts st) = Send_request st ∧
            Send_response (run' acts st) = Send_response st).
  { clear acts. intros acts. induction acts as [|act acts IH]; intros st; [done|].
    change (run' (act :: acts) st) with (run' acts (step' act st)).
    destruct (IH (step' act st)) as [-> ->]. apply Hstep. }
  destruct (Hrun acts (Init test_mode conf res)) as [-> ->].
  by destruct test_mode.
Qed.

(** X19.  A request that replaces an unanswered one does not protect the
    entry from the timer of the request it replaced once the delay of that
    timer has elapsed: [Stop] leaves the elapsed timer as it is, and when
    its callback runs the entry, now holding the data of the new request,
    is removed and nothing is published. *)
Theorem elapsed_timer_outlives_superseding_request st msg a t id tm :
  Reachable st →
  transactionsMap st !! Hashable (m_TcpTuple msg) = Some a →
  heap st !! a = Some t →
  t_timer t = Some id →
  timers st !! id = Some tm →
  tm_status tm = TimerExpired →
  transactionsMap (request msg st) !! Hashable (m_TcpTuple msg) = Some a ∧
  timers (request msg st) !! id = Some tm ∧
  transactionsMap (callback id (request msg st)) !! Hashable (m_TcpTuple msg) = None ∧
  results (callback id (request msg st)) = results st.
Proof.
  intros Hreach Hk Ha Hid Htm Hst.
  destruct (reachable_wf _ _ _ Hreach) as [Ht Hm].
  destruct (reachable_tidy _ _ _ Hreach) as [_ _ _ Hlive].
  destruct (Ht _ _ Hk) as (u & Hu & Hkey & [ev0 Ho] & _).
  assert (u = t) by congruence. subst u.
  destruct (Hlive _ _ _ _ Hk Ha Hid) as (tm' & Htm' & Hown & _).
  assert (tm' = tm) by congruence. subst tm'.
  assert (Hlt : (a < length (heap st))%nat) by by eapply lookup_lt_Some.
  assert (Hidlt : (id < length (timers st))%nat) by by eapply lookup_lt_Some.
  assert (Hstopped : stopped tm = tm) by (unfold stopped; by rewrite Hst).
  assert (Hkept : timers (request msg st) !! id = Some tm).
  { rewrite (request_known _ _ _ _ _ _ Hk Ha), rearm_eq, Ho. simpl.
    rewrite lookup_app_l by (by rewrite length_stopTimerOf).
    rewrite (lookup_stopTimerOf_eq (store msg t) _ id Hid), Htm. simpl.
    by rewrite Hstopped. }
  assert (Hheap : ∃ t', heap (request msg st) !! a = Some t' ∧ t_tuple t' = t_tuple t).
  { apply (step_keeps_allocated (ARequest msg) st a t Ha). }
  destruct Hheap as (t' & Ht' & Htuple).
  split.
  { rewrite (request_known _ _ _ _ _ _ Hk Ha), rearm_eq, Ho. done. }
  split; [done|].
  split; [|by rewrite results_callback, results_request].
  unfold callback. rewrite Hkept, Hst. unfold expireTransaction. simpl.
  rewrite Hown, Ht'. simpl. rewrite Htuple, Hkey. apply lookup_delete_eq.
Qed.

End CorrelatorExtras.

(** ** The stream driver *)

Section DriverExtras.

Variable IP_String : list N → string.
Variable TcpDirectionReverse : Z.
Variable FindProcessesTuple : TcpTuple → CmdlineTuple.
Variable TCP_MAX_DATA_IN_STREAM : Z.
Variable mongodbMessageParser : MongodbStream → bool * bool * MongodbStream.

Local Abbreviation Parse' :=
  (Parse IP_String TcpDirectionReverse FindProcessesTuple TCP_MAX_DATA_IN_STREAM
     mongodbMessageParser).
Local Abbreviation parseLoop' :=
  (parseLoop IP_String TcpDirectionReverse FindProcessesTuple mongodbMessageParser).

(** One turn of the loop on a buffer that is not empty. *)
Lemma parseLoop_turn fuel pkt tcptuple dir priv stream st :
  s_data stream ≠ [] →
  parseLoop' (S fuel) pkt tcptuple dir priv stream st =
    let stream1 :=
      match s_message stream with
      | None => set_message (Some (newMessage (pkt_Ts pkt))) stream
      | Some _ => stream
      end in
    let '(ok, complete, stream2) := mongodbMessageParser stream1 in
    if negb ok then Returned (Some (setData priv dir None)) st
    else if complete then
      match s_message stream2 with
      | Some m =>
          let '(m1, st1) :=
            handleMongodb IP_String TcpDirectionReverse FindProcessesTuple m tcptuple dir st in
          match PrepareForNewMessage (set_message (Some m1) stream2) with
          | Some stream3 => parseLoop' fuel pkt tcptuple dir priv stream3 st1
          | None => Returned None st1
          end
      | None => Returned None st
      end
    else Returned (Some (setData priv dir (Some stream2))) st.
Proof.
  intros Hne. simpl. rewrite decide_True; [done|].
  destruct (s_data stream); simpl; [done|lia].
Qed.

Lemma parseLoop_empty fuel pkt tcptuple dir priv stream st :
  s_data stream = [] →
  parseLoop' fuel pkt tcptuple dir priv stream st =
    Returned (Some (setData priv dir (Some stream))) st.
Proof.
  intros He. destruct fuel; simpl; rewrite decide_False; try done;
    rewrite He; simpl; lia.
Qed.

Lemma parseLoop_slot fuel pkt tcptuple dir priv stream st r st' :
  parseLoop' fuel pkt tcptuple dir priv stream st = Returned r st' →
  r = None ∨ ∃ s, r = Some (setData priv dir s).
Proof.
  revert stream st. induction fuel as [|fuel IH]; intros stream st.
  - simpl. case_decide; [done|]. intros [= <- <-]. eauto.
  - destruct (decide (s_data stream = [])) as [He|Hne].
    { rewrite parseLoop_empty by done. intros [= <- <-]. eauto. }
    rewrite parseLoop_turn by done. simpl.
    destruct (mongodbMessageParser _) as [[ok complete] stream2].
    destruct ok; simpl; [|intros [= <- <-]; by eauto].
    destruct complete; [|intros [= <- <-]; by eauto].
    destruct (s_message stream2) as [m|]; [|intros [= <- <-]; by eauto].
    destruct (PrepareForNewMessage _) as [stream3|]; [by apply IH|].
    intros [= <- <-]. eauto.
Qed.

(** X12.  Whatever a packet of one direction holds, [Parse] returns either
    nil, after a panic, or protocol data in which the slot of the other
    direction is exactly as it was: a malformed message, an oversized
    buffer or any number of completed messages in one direction never
    changes the buffer of the other. *)
Theorem Parse_keeps_other_direction fuel pkt tcptuple dir private st r st' :
  Parse' fuel pkt tcptuple dir private st = Returned r st' →
  r = None ∨
  ∃ p, r = Some p ∧
       ∀ d, d ≠ dir → getData p d = getData (default emptyPrivateData private) d.
Proof.
  unfold Parse. set (priv := default emptyPrivateData private).
  assert (Hset : ∀ s, ∃ p, Some (setData priv dir s) = Some p ∧
            ∀ d, d ≠ dir → getData p d = getData priv d).
  { intros s. eexists. split; [done|]. intros d Hd. by apply getData_setData_ne. }
  destruct (getData priv dir) as [[old|]|].
  - case_decide.
    + intros [= <- <-]. right. apply Hset.
    + intros Hloop. apply parseLoop_slot in Hloop as [->|[s ->]]; [by left|].
      right. apply Hset.
  - intros Hloop. apply parseLoop_slot in Hloop as [->|[s ->]]; [by left|].
    right. apply Hset.
  - intros [= <- <-]. by left.
Qed.

(** X13.  With a decoder that makes progress, [Parse] returns: as many
    turns of the loop as there are bytes buffered for the direction and in
    the payload, and one more, are always enough, whatever the bytes are
    and whatever the state of the correlator. *)
Theorem Parse_ends fuel pkt tcptuple dir private st :
  productive mongodbMessageParser →
  (length (buffered private dir) + length (Payload pkt) < fuel)%nat →
  ∃ r st', Parse' fuel pkt tcptuple dir private st = Returned r st'.
Proof.
  intros Hprod Hfuel. unfold Parse, buffered in *.
  destruct (getData (default emptyPrivateData private) dir) as [[old|]|];
    [| |by eauto].
  - case_decide; [by eauto|].
    apply parseLoop_returns; [done|]. simpl. rewrite length_app. lia.
  - apply parseLoop_returns; [done|]. simpl in *. lia.
Qed.

(** X14.  The loop of [Parse] ends only because a completed message has a
    positive length.  With a decoder that completes a message of length
    zero on a buffer that is not empty, [PrepareForNewMessage] consumes
    nothing and no number of turns brings the loop to an end. *)
Theorem zero_length_message_never_ends fuel pkt tcptuple dir priv stream st :
  completes_nothing mongodbMessageParser →
  s_data stream ≠ [] →
  parseLoop' fuel pkt tcptuple dir priv stream st = OutOfFuel.
Proof.
  intros Hz. revert stream st. induction fuel as [|fuel IH]; intros stream st Hne.
  - simpl. rewrite decide_True; [done|]. destruct (s_data stream); simpl; [done|lia].
  - rewrite parseLoop_turn by done. simpl.
    set (stream1 := match s_message stream with
                    | Some _ => stream
                    | None => set_message (Some (newMessage (pkt_Ts pkt))) stream
                    end).
    assert (Hd1 : s_data stream1 = s_data stream).
    { subst stream1. by destruct (s_message stream). }
    destruct (Hz stream1) as (m & s' & -> & Hd & Hm & Hlen); [by rewrite Hd1|].
    simpl. rewrite Hm. unfold PrepareForNewMessage. simpl.
    rewrite Hlen. rewrite decide_True by lia. simpl.
    apply IH. simpl. by rewrite Hd, Hd1.
Qed.

(** X15.  With a decoder that leaves the buffer alone, [Parse] neither
    invents nor reorders bytes: the buffer it keeps for the direction is a
    suffix of the bytes buffered before followed by the payload of the
    packet, the bytes in front of it being those of the completed
    messages. *)
Theorem Parse_keeps_a_suffix fuel pkt tcptuple dir private st p st' kept :
  keeps_data mongodbMessageParser →
  Parse' fuel pkt tcptuple dir private st = Returned (Some p) st' →
  getData p dir = Some (Some kept) →
  ∃ consumed, buffered private dir ++ Payload pkt = consumed ++ s_data kept.
Proof.
  intros Hkeep.
  assert (Hloop : ∀ fuel priv stream st,
            is_Some (getData priv dir) →
            parseLoop' fuel pkt tcptuple dir priv stream st = Returned (Some p) st' →
            getData p dir = Some (Some kept) →
            ∃ consumed, s_data stream = consumed ++ s_data kept).
  { clear fuel st. intros fuel priv. induction fuel as [|fuel IH]; intros stream st Hpriv.
    - simpl. case_decide; [done|]. intros [= <- <-].
      rewrite getData_setData_eq by done. intros [= <-]. by exists [].
    - destruct (decide (s_data stream = [])) as [He|Hne].
      { rewrite parseLoop_empty by done. intros [= <- <-].
        rewrite getData_setData_eq by done. intros [= <-]. by exists []. }
      rewrite parseLoop_turn by done. simpl.
      set (stream1 := match s_message stream with
                      | Some _ => stream
                      | None => set_message (Some (newMessage (pkt_Ts pkt))) stream
                      end).
      assert (Hd1 : s_data stream1 = s_data stream).
      { subst stream1. by destruct (s_message stream). }
      pose proof (Hkeep stream1) as Hd2.
      destruct (mongodbMessageParser stream1) as [[ok complete] stream2].
      simpl in Hd2.
      destruct ok; simpl.
      2:{ intros [= <- <-]. rewrite getData_setData_eq by done. done. }
      destruct complete.
      2:{ intros [= <- <-]. rewrite getData_setData_eq by done. intros [= <-].
          exists []. simpl. congruence. }
      destruct (s_message stream2) as [m|]; [|done].
      unfold PrepareForNewMessage. simpl. case_decide; [|done].
      intros Hrest Hkept.
      destruct (IH _ _ Hpriv Hrest Hkept) as (c & Hc). simpl in Hc.
      exists (take (Z.to_nat (m_messageLength m)) (s_data stream2) ++ c).
      rewrite <- Hd1, <- Hd2, <- app_assoc, <- Hc. by rewrite take_drop. }
  unfold Parse, buffered. set (priv := default emptyPrivateData private).
  destruct (getData priv dir) as [[old|]|] eqn:Hg.
  - case_decide.
    + intros [= <- <-]. rewrite getData_setData_eq by (by rewrite Hg). done.
    + intros H1 H2. by apply (Hloop _ _ _ _ ltac:(by rewrite Hg) H1 H2).
  - intros H1 H2. by apply (Hloop _ _ _ _ ltac:(by rewrite Hg) H1 H2).
  - done.
Qed.

(** X16.  With a decoder that leaves the timestamp of the message in
    progress alone, the timestamp of a stream is never refreshed: the
    message in progress that [Parse] leaves behind carries the capture time
    of the packet that created the buffer, or the timestamp the buffer's
    message had before the packet, and never that of a later packet,
    however many messages were completed in between. *)
Theorem Parse_keeps_the_first_timestamp fuel pkt tcptuple dir private st p st' kept m' :
  keeps_Ts mongodbMessageParser →
  Parse' fuel pkt tcptuple dir private st = Returned (Some p) st' →
  getData p dir = Some (Some kept) →
  s_message kept = Some m' →
  match getData (default emptyPrivateData private) dir with
  | Some (Some old) => ∀ m0, s_message old = Some m0 → m_Ts m' = m_Ts m0
  | _ => m_Ts m' = pkt_Ts pkt
  end.
Proof.
  intros Hts HP Hkept Hm'.
  assert (Hloop : ∀ n priv stream s m0,
            is_Some (getData priv dir) →
            s_message stream = Some m0 →
            parseLoop' n pkt tcptuple dir priv stream s = Returned (Some p) st' →
            m_Ts m' = m_Ts m0).
  { clear HP. intros n priv.
    induction n as [|n IH]; intros stream s m0 Hpriv Hm0.
    - simpl. case_decide; [done|]. intros [= <- <-].
      rewrite getData_setData_eq in Hkept by done. congruence.
    - destruct (decide (s_data stream = [])) as [He|Hne].
      { rewrite parseLoop_empty by done. intros [= <- <-].
        rewrite getData_setData_eq in Hkept by done. congruence. }
      rewrite parseLoop_turn by done. simpl. rewrite Hm0.
      pose proof (Hts stream m0) as Hkeep.
      destruct (mongodbMessageParser stream) as [[ok complete] stream2].
      simpl in Hkeep.
      destruct ok; simpl.
      2:{ intros [= <- <-]. rewrite getData_setData_eq in Hkept by done. done. }
      destruct complete.
      2:{ intros [= <- <-]. rewrite getData_setData_eq in Hkept by done.
          injection Hkept as <-. by apply Hkeep. }
      destruct (s_message stream2) as [m|] eqn:Hm; [|done].
      unfold PrepareForNewMessage. simpl. case_decide; [|done].
      intros Hrest.
      apply (IH _ _ (newMessage (m_Ts m)) Hpriv) in Hrest; [|done].
      rewrite Hrest. simpl. by apply Hkeep. }
  unfold Parse in HP.
  set (priv := default emptyPrivateData private) in *.
  destruct (getData priv dir) as [[old|]|] eqn:Hg.
  - intros m0 Hm0. case_decide.
    + injection HP as <- <-. rewrite getData_setData_eq in Hkept by (by rewrite Hg). done.
    + eapply Hloop; [| |exact HP]; [by rewrite Hg | done].
  - apply (Hloop _ _ _ _ (newMessage (pkt_Ts pkt))) in HP; [done|by rewrite Hg|done].
  - done.
Qed.

(** X18.  A first packet of a direction that the decoder completes as one
    message filling the whole payload is handed to the correlator once,
    with the connection and the direction [Parse] was called with, and
    leaves the direction with an empty buffer and a new message in
    progress; one turn of the loop is enough.  When the message is a
    request and the module is in a reachable state, the connection has an
    entry in the table afterwards. *)
Theorem whole_message_packet fuel pkt tcptuple dir private st decoded m :
  getData (default emptyPrivateData private) dir = Some None →
  Payload pkt ≠ [] →
  mongodbMessageParser (newStream pkt tcptuple) = (true, true, decoded) →
  s_message decoded = Some m →
  s_data decoded = Payload pkt →
  m_messageLength m = Z.of_nat (length (Payload pkt)) →
  let after :=
    (handleMongodb IP_String TcpDirectionReverse FindProcessesTuple m tcptuple dir st).2 in
  Parse' (S fuel) pkt tcptuple dir private st =
    Returned
      (Some (setData (default emptyPrivateData private) dir
               (Some {| s_tcptuple := s_tcptuple decoded; s_data := [];
                        s_parseOffset := s_parseOffset decoded;
                        s_bytesReceived := s_bytesReceived decoded;
                        s_message := Some (newMessage (m_Ts m)) |})))
      after ∧
  (reachable IP_String TcpDirectionReverse st → m_IsResponse m = false →
   is_Some (transactionsMap after !! Hashable tcptuple)).
Proof.
  intros Hnil Hne Hparse Hm Hdata Hlen after. split.
  - unfold Parse. rewrite Hnil.
    rewrite parseLoop_turn by done. simpl. rewrite Hparse. simpl. rewrite Hm.
    unfold PrepareForNewMessage. simpl.
    rewrite decide_True by (rewrite Hdata; lia).
    assert (Hdrop : drop (Z.to_nat (m_messageLength m)) (s_data decoded) = []).
    { rewrite Hlen, Hdata, Nat2Z.id. apply drop_all. }
    rewrite Hdrop. by rewrite parseLoop_empty.
  - intros Hreach Hreq. subst after. unfold handleMongodb. simpl. rewrite Hreq.
    set (m1 := {| m_Ts := m_Ts m; m_TcpTuple := tcptuple |}).
    destruct (request_entry IP_String TcpDirectionReverse m1 st
                (reachable_wf _ _ _ Hreach)) as (a & base & _ & _ & _ & -> & _).
    simpl. rewrite lookup_insert_eq. by eexists.
Qed.

End DriverExtras.

Lemma parserOfDecoder_keeps_data decodeBody : keeps_data (parserOfDecoder decodeBody).
Proof.
  intros s. unfold parserOfDecoder.
  destruct (s_message s) as [m|]; [|done].
  by destruct (decodeMessage decodeBody (s_data s) m) as [[] m'].
Qed.

Lemma parserOfDecoder_acceptBody_keeps_Ts : keeps_Ts (parserOfDecoder acceptBody).
Proof.
  intros s m m' Hm. unfold parserOfDecoder. rewrite Hm.
  assert (HTs : m_Ts (decodeMessage acceptBody (s_data s) m).2 = m_Ts m).
  { unfold decodeMessage.
    destruct (readInt32 0 (s_data s)) as [len|]; [|done].
    repeat case_decide; try done.
    destruct (readInt32 4 (s_data s)), (readInt32 8 (s_data s)),
      (readInt32 12 (s_data s)) as [code|]; try done.
    by destruct (resolveOperation code). }
  destruct (decodeMessage acceptBody (s_data s) m) as [[] m1]; simpl in *;
    intros [= <-]; done.
Qed.

Lemma zeroParser_completes_nothing : completes_nothing zeroParser.
Proof. intros s Hne. by exists (newMessage 0), (set_message (Some (newMessage 0)) s). Qed.

(** * Instances of the further properties *)

Lemma one_open_reachable : reachable dotted 0 one_open.
Proof.
  apply (reachable_step dotted 0 (ARequest count_users) (started true)),
        (reachable_Init dotted 0 true sample_conf true).
Qed.

Lemma started_reachable : reachable dotted 0 (started true).
Proof. apply (reachable_Init dotted 0 true sample_conf true). Qed.

Lemma published_event_ignores_history_witness :
  reachable dotted 0 one_open ∧
  results (receivedMongodbResponse (reply_after 12000000 "")
             (receivedMongodbRequest dotted 0 find_orders one_open)) =
    Some ([] ++ [firstEvent dotted 0 find_orders (reply_after 12000000 "")]).
Proof.
  split; [exact one_open_reachable|].
  exact (proj1 (published_event_ignores_history dotted 0 one_open [] find_orders
                  (reply_after 12000000 "") one_open_reachable eq_refl eq_refl)).
Defined.

Lemma published_event_content_witness :
  ∃ ev,
    results (receivedMongodbResponse (reply_after 5000000 "")
               (receivedMongodbRequest dotted 0 count_users (started true))) =
      Some ([] ++ [ev]) ∧
    ev_status ev = OK_STATUS ∧ ev_query ev = "count db.users"%string.
Proof.
  destruct (published_event_content dotted 0 (started true) [] count_users
              (reply_after 5000000 "") started_reachable eq_refl eq_refl)
    as (ev & Hev & _ & _ & _ & _ & _ & Hok & _ & Hq).
  exists ev. split; [exact Hev|]. split; [apply Hok; reflexivity | exact Hq].
Defined.

Lemma published_endpoints_follow_request_direction_witness :
  ∃ ev,
    results (receivedMongodbResponse (reply_after 5000000 "")
               (receivedMongodbRequest dotted 0 count_users (started true))) =
      Some ([] ++ [ev]) ∧
    ev_src ev = {| Ip := "10.0.0.1"; Port := 40000; Proc := "" |}.
Proof.
  destruct (published_endpoints_follow_request_direction dotted 0 (started true) []
              count_users (reply_after 5000000 "") started_reachable eq_refl eq_refl)
    as (ev & Hev & _ & Hfwd).
  exists ev. split; [exact Hev|].
  destruct Hfwd as [Hsrc _]; [vm_compute; discriminate | exact Hsrc].
Defined.

Lemma events_bounded_by_responses_witness :
  ∃ more,
    results (run dotted 0
               [ARequest count_users; AResponse (reply_after 5000000 "");
                AResponse (reply_after 6000000 "")]
               (started true)) = Some ([] ++ more) ∧
    (length more ≤ 2)%nat.
Proof.
  exact (proj1 (events_bounded_by_responses dotted 0
                  [ARequest count_users; AResponse (reply_after 5000000 "");
                   AResponse (reply_after 6000000 "")]
                  (started true)) [] eq_refl).
Defined.

Lemma other_connections_untouched_witness :
  Hashable client_server ≠ Hashable (m_TcpTuple ping_other) ∧
  transactionsMap (receivedMongodbRequest dotted 0 ping_other one_open)
    !! Hashable client_server = transactionsMap one_open !! Hashable client_server.
Proof.
  assert (Hne : Hashable client_server ≠ Hashable (m_TcpTuple ping_other))
    by (vm_compute; discriminate).
  split; [exact Hne|].
  exact (proj1 (other_connections_untouched dotted 0 one_open ping_other
                  (Hashable client_server) one_open_reachable Hne)).
Defined.

Lemma one_waiting_timer_per_transaction_witness :
  reachable dotted 0 one_open ∧
  ∀ id tm, timers one_open !! id = Some tm → tm_duration tm = TransactionTimeout.
Proof.
  split; [exact one_open_reachable|].
  exact (proj1 (one_waiting_timer_per_transaction dotted 0 one_open one_open_reachable)).
Defined.

Lemma open_transaction_has_live_timer_witness :
  transactionsMap one_open !! Hashable client_server = Some 0%nat ∧
  ∃ t id tm,
    heap one_open !! 0%nat = Some t ∧ t_timer t = Some id ∧
    timers one_open !! id = Some tm ∧ tm_trans tm = 0%nat ∧ live tm ∧
    transactionsMap (callback id (elapse id one_open)) !! Hashable client_server = None ∧
    results (callback id (elapse id one_open)) = results one_open.
Proof.
  split; [reflexivity|].
  exact (open_transaction_has_live_timer dotted 0 one_open (Hashable client_server)
           0%nat one_open_reachable eq_refl).
Defined.

Lemma response_after_timeout_is_orphan_witness :
  results
    (receivedMongodbResponse (reply_after 11000000000 "")
       (callback 0 (elapse 0 (receivedMongodbRequest dotted 0 count_users (started true)))))
  = results (started true).
Proof.
  exact (proj1 (proj2 (response_after_timeout_is_orphan dotted 0 (started true)
                         count_users (reply_after 11000000000 "")
                         started_reachable eq_refl))).
Defined.

Lemma warnings_logged_witness :
  warnings (step dotted 0 (ARequest find_orders) one_open) =
    warnings one_open ++ warned (ARequest find_orders) one_open.
Proof. exact (warnings_logged dotted 0 one_open (ARequest find_orders) one_open_reachable). Defined.

Lemma transaction_key_never_changes_witness :
  ∃ t',
    heap (run dotted 0 [AResponse (reply_after 5000000 ""); ARequest find_orders] one_open)
      !! 0%nat = Some t' ∧
    t_tuple t' = client_server.
Proof.
  edestruct (transaction_key_never_changes dotted 0
               [AResponse (reply_after 5000000 ""); ARequest find_orders] one_open 0%nat)
    as (t' & Ht' & Htuple); [reflexivity|].
  exists t'. split; [exact Ht' | exact Htuple].
Defined.

Lemma closed_transaction_stays_closed_witness :
  closed answered_late 0%nat ∧
  closed (run dotted 0 [ARequest find_orders; AResponse (reply_after 9000000 "")]
            answered_late) 0%nat.
Proof.
  assert (Hc : closed answered_late 0%nat).
  { split; [vm_compute; lia|]. intros k.
    change (transactionsMap answered_late) with (∅ : gmap HashableTcpTuple nat).
    by rewrite lookup_empty. }
  split; [exact Hc|].
  exact (closed_transaction_stays_closed dotted 0
           [ARequest find_orders; AResponse (reply_after 9000000 "")] answered_late
           0%nat Hc).
Defined.

Lemma Parse_keeps_other_direction_witness :
  ∃ r st',
    Parse dotted 0 no_processes 1000 (parserOfDecoder acceptBody) 1
      (packet [40; 0; 0; 0; 1; 0] 7) client_server 0 (Some idle_since_zero)
      (started true) = Returned r st' ∧
    (r = None ∨
     ∃ p, r = Some p ∧
          ∀ d, d ≠ 0 → getData p d = getData (default emptyPrivateData (Some idle_since_zero)) d).
Proof.
  eexists _, _. split; [vm_compute; reflexivity|].
  eapply (Parse_keeps_other_direction dotted 0 no_processes 1000
           (parserOfDecoder acceptBody) 1 (packet [40; 0; 0; 0; 1; 0] 7) client_server 0
           (Some idle_since_zero) (started true)).
  vm_compute; reflexivity.
Defined.

Lemma Parse_ends_witness :
  ∃ r st',
    Parse dotted 0 no_processes 1000 (parserOfDecoder acceptBody) 7
      (packet [40; 0; 0; 0; 1; 0] 7) client_server 0 (Some idle_since_zero)
      (started true) = Returned r st'.
Proof.
  apply (Parse_ends dotted 0 no_processes 1000 (parserOfDecoder acceptBody) 7
           (packet [40; 0; 0; 0; 1; 0] 7) client_server 0 (Some idle_since_zero)
           (started true) parserOfDecoder_acceptBody_productive).
  vm_compute. lia.
Defined.

Lemma zero_length_message_never_ends_witness :
  parseLoop dotted 0 no_processes zeroParser 50 (packet [1; 2; 3] 0) client_server 0
    emptyPrivateData (newStream (packet [1; 2; 3] 0) client_server) (started true)
  = OutOfFuel.
Proof.
  apply (zero_length_message_never_ends dotted 0 no_processes zeroParser 50
           (packet [1; 2; 3] 0) client_server 0 emptyPrivateData
           (newStream (packet [1; 2; 3] 0) client_server) (started true)
           zeroParser_completes_nothing).
  discriminate.
Defined.

Lemma Parse_keeps_a_suffix_witness :
  ∃ p st',
    Parse dotted 0 no_processes 1000 (parserOfDecoder acceptBody) 5
      {| Payload := header_only 212 7 ++ bytes_of [16; 0; 0; 0]; pkt_Ts := 0 |}
      client_server 0 None (started true) = Returned (Some p) st' ∧
    (s_data <$> default None (getData p 0)) = Some (bytes_of [16; 0; 0; 0]) ∧
    ∀ kept, getData p 0 = Some (Some kept) →
      ∃ consumed,
        buffered None 0 ++ (header_only 212 7 ++ bytes_of [16; 0; 0; 0]) =
          consumed ++ s_data kept.
Proof.
  eexists _, _. split; [vm_compute; reflexivity|].
  split; [reflexivity|].
  intros kept Hkept.
  eapply (Parse_keeps_a_suffix dotted 0 no_processes 1000 (parserOfDecoder acceptBody) 5
            {| Payload := header_only 212 7 ++ bytes_of [16; 0; 0; 0]; pkt_Ts := 0 |}
            client_server 0 None (started true));
    [apply parserOfDecoder_keeps_data | vm_compute; reflexivity | exact Hkept].
Defined.

Lemma Parse_keeps_the_first_timestamp_witness :
  ∃ p st',
    Parse dotted 0 no_processes 1000 (parserOfDecoder acceptBody) 5
      (packet [16; 0] 9000) client_server 1 (Some idle_since_zero) (started true)
      = Returned (Some p) st' ∧
    pkt_Ts (packet [16; 0] 9000) = 9000 ∧
    is_Some (default None (getData p 1) ≫= s_message) ∧
    ∀ kept m', getData p 1 = Some (Some kept) → s_message kept = Some m' → m_Ts m' = 0.
Proof.
  eexists _, _. split; [vm_compute; reflexivity|].
  split; [reflexivity|]. split; [by eexists|].
  intros kept m' Hkept Hm'.
  refine (Parse_keeps_the_first_timestamp dotted 0 no_processes 1000
            (parserOfDecoder acceptBody) 5 (packet [16; 0] 9000) client_server 1
            (Some idle_since_zero) (started true) _ _ kept m'
            parserOfDecoder_acceptBody_keeps_Ts _ Hkept Hm' (newMessage 0) eq_refl).
  vm_compute; reflexivity.
Defined.

Lemma whole_message_packet_witness :
  ∃ decoded m,
    parserOfDecoder headerBody (newStream (packet [16; 0; 0; 0;  1; 0; 0; 0;  0; 0; 0; 0;  212; 7; 0; 0] 0) client_server)
      = (true, true, decoded) ∧
    s_message decoded = Some m ∧
    Parse dotted 0 no_processes 1000 (parserOfDecoder headerBody) 1
      (packet [16; 0; 0; 0;  1; 0; 0; 0;  0; 0; 0; 0;  212; 7; 0; 0] 0)
      client_server 1 None (started true) =
    Returned
      (Some (setData emptyPrivateData 1
               (Some {| s_tcptuple := s_tcptuple decoded; s_data := [];
                        s_parseOffset := s_parseOffset decoded;
                        s_bytesReceived := s_bytesReceived decoded;
                        s_message := Some (newMessage (m_Ts m)) |})))
      (handleMongodb dotted 0 no_processes m client_server 1 (started true)).2.
Proof.
  eexists _, _. split; [vm_compute; reflexivity|]. split; [reflexivity|].
  apply (whole_message_packet dotted 0 no_processes 1000 (parserOfDecoder headerBody) 0
           (packet [16; 0; 0; 0;  1; 0; 0; 0;  0; 0; 0; 0;  212; 7; 0; 0] 0)
           client_server 1 None (started true));
    [reflexivity | discriminate | vm_compute; reflexivity | reflexivity
    | reflexivity | reflexivity].
Defined.

Lemma elapsed_open_reachable : reachable dotted 0 elapsed_open.
Proof.
  apply (reachable_step dotted 0 (AElapse 0%nat)
           (step dotted 0 (ARequest count_users) (started true))),
        (reachable_step dotted 0 (ARequest count_users) (started true)),
        (reachable_Init dotted 0 true sample_conf true).
Qed.

Lemma elapsed_timer_outlives_superseding_request_witness :
  reachable dotted 0 elapsed_open ∧
  (tm_status <$> timers elapsed_open !! 0%nat) = Some TimerExpired ∧
  transactionsMap (callback 0 (receivedMongodbRequest dotted 0 find_orders elapsed_open))
    !! Hashable (m_TcpTuple find_orders) = None.
Proof.
  split; [exact elapsed_open_reachable|]. split; [reflexivity|].
  edestruct (elapsed_timer_outlives_superseding_request dotted 0 elapsed_open
               find_orders 0%nat) as (_ & _ & Hgone & _);
    [exact elapsed_open_reachable | reflexivity | reflexivity | reflexivity
    | reflexivity | reflexivity | exact Hgone].
Defined.
